(** * rules_pex examples: the Flask readiness harness and its coverage audit

    A shallow embedding of [examples/examples_test.py] (the class
    [FlaskExamplesTest]) and of [examples/rules_venv/flask_hello_world.py].

    The test method [_run_flask_target] talks to the operating system: it
    takes a lock, looks at the file system, spawns [bazel run], polls an HTTP
    endpoint, sleeps, and tears the process down.  Each of these calls is an
    [event]; what the outside world answers is read from a [world] record.
    The method itself is written in a small monad [M] that threads the class
    attribute [_tested_examples], collects the events in program order and
    carries Python's three ways of leaving a block: falling through,
    [return], and a raised exception. *)

From Stdlib Require Import ZArith NArith String Ascii List Lia.
From Stdlib Require Import DecimalString DecimalFacts DecimalPos DecimalN.
From stdpp Require Import base gmap strings list sorting.

Local Open Scope string_scope.
Local Open Scope list_scope.
#[local] Set Warnings "-clear-no-such-hyp".

(** ** Python values that cross the model boundary *)

(** [str(n)] for a non-negative [int]. *)
Definition str (n : N) : string := NilEmpty.string_of_uint (N.to_uint n).

(** [sep.join(words)]. *)
Definition join (sep : string) (words : list string) : string :=
  String.concat sep words.

(** What one call [urlopen(url, timeout=5)] followed by
    [response.read().decode("utf-8")] can do.  [urllib] returns a response
    object only for a 2xx status; a reply with any other final status is
    raised as [HTTPError] (which carries the status code); a failure to
    obtain a reply at all (refused, unreachable, DNS, connect timeout) is
    raised as [URLError].  Anything else (a read timeout, undecodable
    bytes) is some other exception class. *)
Inductive urlopen_result :=
| Response (content : string)
| RaisesHTTPError (code : N) (msg : string)
| RaisesURLError (reason : string)
| RaisesOther (exc : string).

(** The server answered with an HTTP status line, whatever the status. *)
Definition yields_http_response (r : urlopen_result) : bool :=
  match r with
  | Response _ | RaisesHTTPError _ _ => true
  | RaisesURLError _ | RaisesOther _ => false
  end.

(** No HTTP reply was obtained: the failure is below HTTP. *)
Definition connection_level_error (r : urlopen_result) : bool :=
  match r with
  | RaisesURLError _ => true
  | _ => false
  end.

(** The outcomes caught by [except (HTTPError, URLError) as exc], with
    [str(exc)] as [urllib.error] renders it. *)
Definition caught (r : urlopen_result) : option string :=
  match r with
  | RaisesHTTPError code msg => Some ("HTTP Error " +:+ str code +:+ ": " +:+ msg)
  | RaisesURLError reason => Some ("<urlopen error " +:+ reason +:+ ">")
  | Response _ | RaisesOther _ => None
  end.

(** One child of the examples directory as [tearDownClass] looks at it:
    [path.name], [path.is_dir()], [(path / "BUILD.bazel").exists()]. *)
Record dir_entry := {
  entry_name : string;
  entry_is_dir : bool;
  entry_has_build : bool
}.

(** Everything the environment decides during one call of
    [_run_flask_target]. *)
Record world := {
  (** children of [get_examples_dir()] *)
  listing : list dir_entry;
  (** [os.environ] *)
  environ : gmap string string;
  (** [shlex.split]; [None] when it raises [ValueError] *)
  shlex_split : string -> option (list string);
  (** the message of that [ValueError] ("No closing quotation" or
      "No escaped character") *)
  shlex_error : string -> string;
  (** the port [get_free_port()] reads back from the socket *)
  free_port : N;
  (** [Some e] when [subprocess.Popen] raises instead of spawning *)
  popen_error : option string;
  (** [process.poll()] right after the spawn *)
  poll_result : option Z;
  (** the answer to the [i]-th polling attempt, [i] the loop variable *)
  urlopen : nat -> urlopen_result;
  (** does [process.wait(timeout=5)] return before the timeout *)
  exits_within_grace : bool
}.

(** ** Events, exceptions, and the monad *)

Inductive event :=
| LockAcquire
| LockRelease
| RegistryAdd (example : string)
| PathExists (example : string) (found : bool)
| GetFreePort (port : N)
| Print (line : string)
| Popen (cmd : list string) (cwd : string) (env : gmap string string)
| ProcessPoll (code : option Z)
| UrlOpen (url : string) (timeout : N)
| Sleep (seconds : N)
| Terminate
| WaitTimeout (seconds : N) (exited : bool)
| Kill
| Wait.

(** The four ways the harness itself fails a test, one per
    [assertTrue] / [self.fail] / [assertEqual] in the method. *)
Inductive failure :=
| TargetNotFound (example : string)
| PrematureExit (code : Z) (port : N)
| ContentMismatch (content : string)
| Unreachable (logs : list string).

Inductive exn :=
| AssertionError (f : failure)
| ValueError (msg : string)
| OSError (msg : string)
| OtherError (msg : string).

Inductive completion (A : Type) :=
| Normal (a : A)
| Returned
| Raised (e : exn).
Arguments Normal {A} a.
Arguments Returned {A}.
Arguments Raised {A} e.

(** A computation reads and updates [_tested_examples] and emits events. *)
Definition M (A : Type) : Type :=
  gset string -> completion A * list event * gset string.

Definition ret {A} (a : A) : M A := fun reg => (Normal a, [], reg).

Definition bind {A B} (m : M A) (k : A -> M B) : M B :=
  fun reg =>
    match m reg with
    | (Normal a, t1, reg1) =>
        match k a reg1 with
        | (c, t2, reg2) => (c, t1 ++ t2, reg2)
        end
    | (Returned, t1, reg1) => (Returned, t1, reg1)
    | (Raised e, t1, reg1) => (Raised e, t1, reg1)
    end.

Declare Scope py_scope.
Delimit Scope py_scope with py.
Notation "x <~ m ; k" := (bind m (fun x => k))
  (at level 100, m at next level, right associativity) : py_scope.
Notation "m ;;; k" := (bind m (fun _ => k))
  (at level 100, right associativity) : py_scope.
Local Open Scope py_scope.

Definition emit (e : event) : M unit := fun reg => (Normal tt, [e], reg).
Definition raise {A} (e : exn) : M A := fun reg => (Raised e, [], reg).
Definition return_ {A} : M A := fun reg => (Returned, [], reg).

(** [try: body finally: fin].  The way [body] was left survives unless
    [fin] itself leaves by [return] or an exception. *)
Definition try_finally {A} (body : M A) (fin : M unit) : M A :=
  fun reg =>
    match body reg with
    | (c, t1, reg1) =>
        match fin reg1 with
        | (Normal _, t2, reg2) => (c, t1 ++ t2, reg2)
        | (Returned, t2, reg2) => (Returned, t1 ++ t2, reg2)
        | (Raised e, t2, reg2) => (Raised e, t1 ++ t2, reg2)
        end
    end.

(** [with self.__class__._test_lock: body]. *)
Definition with_lock {A} (body : M A) : M A :=
  emit LockAcquire ;;; try_finally body (emit LockRelease).

(** ** [FlaskExamplesTest._run_flask_target] *)

Definition max_tries : nat := 30.

Definition expected_content : string := "hello world!".

(** [self.__class__._tested_examples.add(example)] *)
Definition registry_add (example : string) : M unit :=
  fun reg => (Normal tt, [RegistryAdd example], {[example]} ∪ reg).

(** [example_dir.exists()], for [example] a single path component: the
    path exists when the examples directory has a child of that name. *)
Definition example_dir_exists (w : world) (example : string) : bool :=
  existsb (fun e => String.eqb (entry_name e) example) (listing w).

Definition path_exists (w : world) (example : string) : M bool :=
  let found := example_dir_exists w example in
  emit (PathExists example found) ;;; ret found.

Definition assertTrue (b : bool) (f : failure) : M unit :=
  if b then ret tt else raise (AssertionError f).

Definition fail {A} (f : failure) : M A := raise (AssertionError f).

Definition get_free_port (w : world) : M N :=
  emit (GetFreePort (free_port w)) ;;; ret (free_port w).

(** [startup_args], empty unless [BAZEL_STARTUP_FLAGS] is set. *)
Definition startup_args (w : world) : M (list string) :=
  match environ w !! "BAZEL_STARTUP_FLAGS" with
  | None => ret []
  | Some flags =>
      match shlex_split w flags with
      | Some args => ret args
      | None => raise (ValueError (shlex_error w flags))
      end
  end.

Definition popen (w : world) (cmd : list string) (cwd : string)
    (env : gmap string string) : M unit :=
  match popen_error w with
  | Some e => raise (OSError e)
  | None => emit (Popen cmd cwd env)
  end.

Definition process_poll (w : world) : M (option Z) :=
  emit (ProcessPoll (poll_result w)) ;;; ret (poll_result w).

Definition url_of (port : N) : string := "http://127.0.0.1:" +:+ str port.

(** One pass through the body of [for i in range(max_tries + 1)].  It
    falls through with the (possibly extended) [logs] when the loop is to
    go on, and leaves by [return] or an exception otherwise. *)
Definition attempt (w : world) (port : N) (i : nat) (logs : list string)
    : M (list string) :=
  emit (UrlOpen (url_of port) 5) ;;;
  match urlopen w i with
  | Response content =>
      if String.eqb content expected_content
      then return_
      else fail (ContentMismatch content)
  | RaisesOther e => raise (OtherError e)
  | (RaisesHTTPError _ _ | RaisesURLError _) as exc =>
      let logs := logs ++ option_list (caught exc) in
      (if (i <? max_tries)%nat then emit (Sleep 5) else ret tt) ;;;
      ret logs
  end.

(** The [for] statement over the loop indices still to run. *)
Fixpoint poll_loop (w : world) (port : N) (indices : list nat)
    (logs : list string) : M (list string) :=
  match indices with
  | [] => ret logs
  | i :: rest =>
      logs <~ attempt w port i logs ;
      poll_loop w port rest logs
  end.

(** The [finally:] block. *)
Definition cleanup (w : world) : M unit :=
  emit Terminate ;;;
  emit (WaitTimeout 5 (exits_within_grace w)) ;;;
  (if exits_within_grace w then ret tt else (emit Kill ;;; emit Wait)) ;;;
  emit (Sleep 1).

(** The [try:] block: the liveness check, then the polling loop. *)
Definition try_body (w : world) (port : N) : M (list string) :=
  code <~ process_poll w ;
  match code with
  | Some c => fail (PrematureExit c port)
  | None => ret tt
  end ;;;
  poll_loop w port (seq 0 (max_tries + 1)) [].

Definition _run_flask_target (w : world) (example target : string) : M unit :=
  with_lock (
    registry_add example ;;;
    found <~ path_exists w example ;
    assertTrue found (TargetNotFound example) ;;;
    port <~ get_free_port w ;
    args <~ startup_args w ;
    let cmd := ["bazel"] ++ args ++ ["run"; target] in
    emit (Print ("Running command: " +:+ join " " cmd
                 +:+ " on port " +:+ str port)) ;;;
    let env := <["FLASK_RUN_PORT" := str port]> (environ w) in
    popen w cmd example env ;;;
    logs <~ try_finally (try_body w port) (cleanup w) ;
    fail (Unreachable logs)
  ).

(** ** [FlaskExamplesTest.tearDownClass] *)

(** The two assertion failures of the audit, with the list printed in
    the message. *)
Inductive audit_error :=
| NotTested (names : list string)
| NonExistent (names : list string).

(** The loop over [examples_dir.iterdir()], with its three [continue]s. *)
Fixpoint discover (paths : list dir_entry) (example_dirs : gset string)
    : gset string :=
  match paths with
  | [] => example_dirs
  | path :: rest =>
      if negb (entry_is_dir path) then discover rest example_dirs
      else if String.prefix "." (entry_name path)
              || String.eqb (entry_name path) "__pycache__"
      then discover rest example_dirs
      else if entry_has_build path
      then discover rest ({[entry_name path]} ∪ example_dirs)
      else discover rest example_dirs
  end.

(** [sorted(names)] on a set of strings.  Bytewise order on UTF-8 is
    code point order. *)
Definition sorted (names : gset string) : list string :=
  merge_sort String.le (elements names).

(** [if names:] *)
Definition nonempty (names : gset string) : bool :=
  bool_decide (names ≠ ∅).

Definition tearDownClass (w : world) (tested_examples : gset string)
    : option audit_error :=
  let example_dirs := discover (listing w) ∅ in
  let untested := example_dirs ∖ tested_examples in
  if nonempty untested then Some (NotTested (sorted untested))
  else
    let non_existent := tested_examples ∖ example_dirs in
    if nonempty non_existent then Some (NonExistent (sorted non_existent))
    else None.

(** ** Running a test method *)

(** What [unittest] reports for one test method. *)
Inductive verdict :=
| Passed
| Failed (f : failure)
| Errored (e : exn).

Definition verdict_of {A} (c : completion A) : verdict :=
  match c with
  | Normal _ | Returned => Passed
  | Raised (AssertionError f) => Failed f
  | Raised e => Errored e
  end.

Record run_result := {
  run_verdict : verdict;
  run_trace : list event;
  run_registry : gset string
}.

(** One call of the method, from a given content of [_tested_examples]. *)
Definition run (w : world) (example target : string) (reg : gset string)
    : run_result :=
  match _run_flask_target w example target reg with
  | (c, t, reg') =>
      {| run_verdict := verdict_of c; run_trace := t; run_registry := reg' |}
  end.

Definition is_urlopen (e : event) : bool :=
  match e with UrlOpen _ _ => true | _ => false end.
Definition is_poll (e : event) : bool :=
  match e with ProcessPoll _ => true | _ => false end.
Definition is_popen (e : event) : bool :=
  match e with Popen _ _ _ => true | _ => false end.
Definition is_sleep5 (e : event) : bool :=
  match e with Sleep 5 => true | _ => false end.
Definition is_lock_event (e : event) : bool :=
  match e with LockAcquire | LockRelease => true | _ => false end.

(** Number of HTTP requests issued in a trace. *)
Definition attempts (t : list event) : nat :=
  length (List.filter is_urlopen t).

(** The process gets spawned: the directory is there, the startup flags
    tokenize, and [Popen] does not raise. *)
Definition launches (w : world) (example : string) : bool :=
  example_dir_exists w example
  && match environ w !! "BAZEL_STARTUP_FLAGS" with
     | None => true
     | Some flags => bool_decide (is_Some (shlex_split w flags))
     end
  && bool_decide (popen_error w = None).

(** ** [examples/rules_venv/flask_hello_world.py] *)

Module FlaskHelloWorld.

(** A value that [os.environ.get(key, default)] can hand to [int]: a string
    from the environment or the integer default. *)
Inductive py_value :=
| PyStr (s : string)
| PyInt (z : Z).

(** Whitespace that [int] skips at both ends of an ASCII string: the C
    locale's [isspace], that is the space and the control characters 9
    to 13. *)
Definition is_space (c : ascii) : bool :=
  let n := nat_of_ascii c in
  (n =? 32)%nat || ((9 <=? n)%nat && (n <=? 13)%nat).

(** The value of an ASCII decimal digit, code points 48 to 57. *)
Definition digit_of (c : ascii) : option N :=
  let n := N_of_ascii c in
  if ((48 <=? n) && (n <=? 57))%N then Some (n - 48)%N else None.

Fixpoint lstrip (l : list ascii) : list ascii :=
  match l with
  | c :: rest => if is_space c then lstrip rest else l
  | [] => []
  end.

Definition strip (l : list ascii) : list ascii :=
  rev (lstrip (rev (lstrip l))).

(** Decimal digits, where a single underscore may stand between two
    digits.  [after_digit] tells whether the previous character was a digit;
    the literal must end on one. *)
Fixpoint parse_digits (l : list ascii) (acc : N) (after_digit : bool)
    : option N :=
  match l with
  | [] => if after_digit then Some acc else None
  | c :: rest =>
      match digit_of c with
      | Some d => parse_digits rest (10 * acc + d)%N true
      | None =>
          if Ascii.eqb c "_" && after_digit
          then parse_digits rest acc false
          else None
      end
  end.

(** The characters of a decimal numeral. *)
Definition uint_chars (d : Decimal.uint) : list ascii :=
  list_ascii_of_string (NilEmpty.string_of_uint d).

(** [sys.get_int_max_str_digits()] as the interpreter sets it by default:
    [int] raises [ValueError] for a literal with more digits than this. *)
Definition int_max_str_digits : N := 4300.

(** The number of digits of a literal; underscores do not count. *)
Definition digit_count (l : list ascii) : N :=
  N.of_nat
    (length
       (List.filter
          (fun c => match digit_of c with Some _ => true | None => false end)
          l)).

(** A literal without its sign. *)
Definition parse_literal (digits : list ascii) : option N :=
  if (int_max_str_digits <? digit_count digits)%N then None
  else parse_digits digits 0 false.

(** [int(s)] for an ASCII string [s] in base 10; [None] is [ValueError].
    The model covers ASCII text only: it also answers [None] for text with
    bytes above 127, where other scripts' digits and spaces would be
    accepted. *)
Definition int_of_string (s : string) : option Z :=
  match strip (list_ascii_of_string s) with
  | "-"%char :: digits => Z.opp <$> (Z.of_N <$> parse_literal digits)
  | "+"%char :: digits => Z.of_N <$> parse_literal digits
  | digits => Z.of_N <$> parse_literal digits
  end.

(** [int(v)] *)
Definition int (v : py_value) : option Z :=
  match v with
  | PyInt z => Some z
  | PyStr s => int_of_string s
  end.

(** [os.environ.get(key, default)] *)
Definition environ_get (environ : gmap string string) (key : string)
    (default : py_value) : py_value :=
  match environ !! key with
  | Some s => PyStr s
  | None => default
  end.

(** The view function. *)
Definition hello_world (_ : unit) : string := "hello world!".

(** The URL map after the decorator [@app.route("/")] has run. *)
Definition url_map : gmap string (unit -> string) :=
  {[ "/" := hello_world ]}.

(** What executing the module does after the definitions. *)
Inductive module_effect :=
| Imported
| AppRun (port : Z)
| RaisesValueError.

(** The [if __name__ == "__main__":] block. *)
Definition main (__name__ : string) (environ : gmap string string)
    : module_effect :=
  if String.eqb __name__ "__main__" then
    match int (environ_get environ "FLASK_RUN_PORT" (PyInt 5000)) with
    | Some port => AppRun port
    | None => RaisesValueError
    end
  else Imported.

End FlaskHelloWorld.

(** ** Closed forms used in the statements *)

(** The events of one attempt that ends in a caught exception. *)
Definition attempt_events (port : N) (i : nat) : list event :=
  UrlOpen (url_of port) 5 :: (if (i <? max_tries)%nat then [Sleep 5] else []).

(** Events of the [finally:] block, spelled out. *)
Definition cleanup_events (w : world) : list event :=
  Terminate :: WaitTimeout 5 (exits_within_grace w)
  :: (if exits_within_grace w then [Sleep 1] else [Kill; Wait; Sleep 1]).

(** [startup_args] when it does not raise. *)
Definition args_of (w : world) : list string :=
  match environ w !! "BAZEL_STARTUP_FLAGS" with
  | None => []
  | Some flags => default [] (shlex_split w flags)
  end.

Definition cmd_of (w : world) (target : string) : list string :=
  ["bazel"] ++ args_of w ++ ["run"; target].

(** How the method leaves, given how the [try:] block left. *)
Definition after_try (c : completion (list string)) : completion unit :=
  match c with
  | Normal logs => Raised (AssertionError (Unreachable logs))
  | Returned => Returned
  | Raised e => Raised e
  end.

(** Events up to and including the spawn. *)
Definition prologue (w : world) (example target : string) : list event :=
  [ LockAcquire; RegistryAdd example; PathExists example true;
    GetFreePort (free_port w);
    Print ("Running command: " +:+ join " " (cmd_of w target)
           +:+ " on port " +:+ str (free_port w));
    Popen (cmd_of w target) example
      (<["FLASK_RUN_PORT" := str (free_port w)]> (environ w)) ].

(** Number of five-second sleeps in a trace. *)
Definition sleeps (t : list event) : nat :=
  length (List.filter is_sleep5 t).

Definition is_response (r : urlopen_result) : bool :=
  match r with Response _ => true | _ => false end.

Definition is_untimed_wait (e : event) : bool :=
  match e with Wait => true | _ => false end.

Definition is_cleanup_event (e : event) : bool :=
  match e with
  | Terminate | WaitTimeout _ _ | Kill | Wait | Sleep 1 => true
  | _ => false
  end.

(** ** Sample worlds *)

Definition rules_venv_entry : dir_entry :=
  {| entry_name := "rules_venv"; entry_is_dir := true; entry_has_build := true |}.

(** The server never comes up: every request is refused. *)
Definition w_refused : world := {|
  listing := [rules_venv_entry];
  environ := ∅;
  shlex_split := fun _ => Some [];
  shlex_error := fun _ => "No closing quotation";
  free_port := 8080;
  popen_error := None;
  poll_result := None;
  urlopen := fun _ => RaisesURLError "[Errno 111] Connection refused";
  exits_within_grace := true
|}.

Definition with_urlopen (w : world) (answers : nat -> urlopen_result) : world := {|
  listing := listing w;
  environ := environ w;
  shlex_split := shlex_split w;
  shlex_error := shlex_error w;
  free_port := free_port w;
  popen_error := popen_error w;
  poll_result := poll_result w;
  urlopen := answers;
  exits_within_grace := exits_within_grace w
|}.

(** The first reply is a 500, the second is the expected page. *)
Definition w_500_then_hello : world :=
  with_urlopen w_refused (fun i =>
    match i with
    | O => RaisesHTTPError 500 "INTERNAL SERVER ERROR"
    | _ => Response "hello world!"
    end).

(** The first reply is a 500, then comes a page with the wrong text. *)
Definition w_500_then_goodbye : world :=
  with_urlopen w_refused (fun i =>
    match i with
    | O => RaisesHTTPError 500 "INTERNAL SERVER ERROR"
    | _ => Response "goodbye world"
    end).

(** Two refused connections, then a page with the wrong text. *)
Definition w_goodbye : world :=
  with_urlopen w_refused (fun i =>
    if (i <? 2)%nat then RaisesURLError "[Errno 111] Connection refused"
    else Response "goodbye world").

(** Two refused connections, then the expected page. *)
Definition w_hello : world :=
  with_urlopen w_refused (fun i =>
    if (i <? 2)%nat then RaisesURLError "[Errno 111] Connection refused"
    else Response "hello world!").

(** [bazel run] dies at once with exit code 1 and ignores nothing. *)
Definition w_exited : world := {|
  listing := [rules_venv_entry];
  environ := {[ "BAZEL_STARTUP_FLAGS" := "--bazelrc=ci.rc" ]};
  shlex_split := fun s => Some [s];
  shlex_error := fun _ => "No closing quotation";
  free_port := 8080;
  popen_error := None;
  poll_result := Some 1%Z;
  urlopen := fun _ => RaisesURLError "[Errno 111] Connection refused";
  exits_within_grace := true
|}.

(** The server answers but does not react to SIGTERM within the grace
    period. *)
Definition w_stubborn : world := {|
  listing := [rules_venv_entry];
  environ := ∅;
  shlex_split := fun _ => Some [];
  shlex_error := fun _ => "No closing quotation";
  free_port := 8080;
  popen_error := None;
  poll_result := None;
  urlopen := fun _ => Response "hello world!";
  exits_within_grace := false
|}.

(** The test [tearDownClass] applies to one child of the examples
    directory: a directory, not hidden, not the bytecode cache, holding a
    [BUILD.bazel]. *)
Definition is_example_dir (path : dir_entry) : bool :=
  entry_is_dir path
  && negb (String.prefix "." (entry_name path))
  && negb (String.eqb (entry_name path) "__pycache__")
  && entry_has_build path.

(** One tested example on disk, and one more example directory, a hidden
    directory, a cache directory, a plain file, and a directory without a
    build file. *)
Definition w_two_examples : world :=
  {| listing :=
       [ rules_venv_entry;
         {| entry_name := "rules_python"; entry_is_dir := true; entry_has_build := true |};
         {| entry_name := ".git"; entry_is_dir := true; entry_has_build := true |};
         {| entry_name := "__pycache__"; entry_is_dir := true; entry_has_build := true |};
         {| entry_name := "examples_test.py"; entry_is_dir := false; entry_has_build := false |};
         {| entry_name := "docs"; entry_is_dir := true; entry_has_build := false |} ];
     environ := ∅;
     shlex_split := fun _ => Some [];
     shlex_error := fun _ => "No closing quotation";
     free_port := 8080;
     popen_error := None;
     poll_result := None;
     urlopen := fun _ => Response "hello world!";
     exits_within_grace := true |}.

(** ** Threads calling the method concurrently *)

(** One call of [_run_flask_target], with the world it meets. *)
Record call := {
  call_world : world;
  call_example : string;
  call_target : string
}.

(** The actions of a call in program order.  They do not depend on the
    registry the call starts from (see [run_shape]). *)
Definition program (c : call) : list event :=
  run_trace (run (call_world c) (call_example c) (call_target c) ∅).

(** The state of [threading.Lock] and, per thread, the actions it still
    has to perform.  A thread performs one call; a thread that makes
    several calls in a row is the special case in which the schedule keeps
    them in that order. *)
Definition threads : Type := bool * list (list event).

(** One action of thread [i].  [acquire()] goes through only while the
    lock is free and takes it; [release()] frees it; nothing else touches
    the lock. *)
Inductive step : threads -> nat * event -> threads -> Prop :=
| step_acquire pool i rest :
    pool !! i = Some (LockAcquire :: rest) ->
    step (false, pool) (i, LockAcquire) (true, <[i := rest]> pool)
| step_release pool i rest :
    pool !! i = Some (LockRelease :: rest) ->
    step (true, pool) (i, LockRelease) (false, <[i := rest]> pool)
| step_other locked pool i e rest :
    pool !! i = Some (e :: rest) ->
    is_lock_event e = false ->
    step (locked, pool) (i, e) (locked, <[i := rest]> pool).

(** A schedule: the actions taken so far, each tagged with its thread. *)
Inductive exec : threads -> list (nat * event) -> threads -> Prop :=
| exec_nil s : exec s [] s
| exec_snoc s labels s' l s'' :
    exec s labels s' -> step s' l s'' -> exec s (labels ++ [l]) s''.

Definition tagged (i : nat) (t : list event) : list (nat * event) :=
  map (pair i) t.

(** The threads of [order] run one after the other, each to completion. *)
Definition serial (programs : list (list event)) (order : list nat)
    : list (nat * event) :=
  flat_map (fun i => tagged i (default [] (programs !! i))) order.

(** A program that takes the lock first, releases it last, and does not
    touch it in between. *)
Definition bracketed (p : list event) : Prop :=
  exists body,
    p = LockAcquire :: body ++ [LockRelease]
    /\ Forall (fun e => is_lock_event e = false) body.

(** Three calls racing for the lock. *)
Definition three_calls : list call :=
  [ {| call_world := w_hello; call_example := "rules_venv";
       call_target := "//:flask_hello_world.pex" |};
    {| call_world := w_exited; call_example := "rules_venv";
       call_target := "//:flask_hello_world.scie" |};
    {| call_world := w_refused; call_example := "rules_rust";
       call_target := "//:flask_hello_world.pex" |} ].

(** What holds of every reachable state: the threads in [order] have run
    to completion one after the other, at most one further thread [j] is
    under way, and every other thread has not started. *)
Definition serialized (programs : list (list event))
    (s : threads) (labels : list (nat * event)) : Prop :=
  exists order current,
    NoDup order
    /\ labels = serial programs order ++ current
    /\ (forall i, i ∈ order -> snd s !! i = Some [])
    /\ ((current = [] /\ fst s = false
         /\ forall i, i ∉ order -> snd s !! i = programs !! i)
        \/ exists j done rest,
             (j ∉ order)
             /\ programs !! j = Some (done ++ rest)
             /\ done <> [] /\ rest <> []
             /\ snd s !! j = Some rest
             /\ current = tagged j done
             /\ fst s = true
             /\ forall i, i ∉ order -> i <> j -> snd s !! i = programs !! i).

(** ** The test methods and the class run *)

Definition test_flask_pex_rules_venv (w : world) : M unit :=
  _run_flask_target w "rules_venv" "//:flask_hello_world.pex".

Definition test_flask_scie_rules_venv (w : world) : M unit :=
  _run_flask_target w "rules_venv" "//:flask_hello_world.scie".

Definition test_flask_pex_rules_python (w : world) : M unit :=
  _run_flask_target w "rules_python" "//:flask_hello_world.pex".

Definition test_flask_scie_rules_python (w : world) : M unit :=
  _run_flask_target w "rules_python" "//:flask_hello_world.scie".

Definition test_flask_pex_aspect_rules_py (w : world) : M unit :=
  _run_flask_target w "aspect_rules_py" "//:flask_hello_world.pex".

Definition test_flask_scie_aspect_rules_py (w : world) : M unit :=
  _run_flask_target w "aspect_rules_py" "//:flask_hello_world.scie".

(** One test method as [unittest] runs it: whatever it raises is caught
    and turned into the method's verdict. *)
Definition run_method (m : M unit) (reg : gset string) : run_result :=
  match m reg with
  | (c, t, reg') =>
      {| run_verdict := verdict_of c; run_trace := t; run_registry := reg' |}
  end.

(** The methods of a class one after the other; [_tested_examples] is a
    class attribute, so each method starts from what the previous left. *)
Fixpoint run_methods (methods : list (M unit)) (reg : gset string)
    : list verdict * list event * gset string :=
  match methods with
  | [] => ([], [], reg)
  | m :: rest =>
      let r := run_method m reg in
      match run_methods rest (run_registry r) with
      | (verdicts, t, reg') =>
          (run_verdict r :: verdicts, run_trace r ++ t, reg')
      end
  end.

(** The six methods in the order the default loader runs them (sorted by
    name); [worlds i] is what the [i]-th of them meets. *)
Definition test_methods (worlds : nat -> world) : list (M unit) :=
  [ test_flask_pex_aspect_rules_py (worlds 0%nat);
    test_flask_pex_rules_python (worlds 1%nat);
    test_flask_pex_rules_venv (worlds 2%nat);
    test_flask_scie_aspect_rules_py (worlds 3%nat);
    test_flask_scie_rules_python (worlds 4%nat);
    test_flask_scie_rules_venv (worlds 5%nat) ].

(** A run of the whole class: [_tested_examples] starts as [set()], the
    methods run, then [tearDownClass] looks at the directory. *)
Definition run_class (worlds : nat -> world) (w_end : world)
    : list verdict * option audit_error :=
  match run_methods (test_methods worlds) ∅ with
  | (verdicts, _, reg) => (verdicts, tearDownClass w_end reg)
  end.

(** The names the six methods pass as [example]. *)
Definition covered_examples : gset string :=
  {[ "aspect_rules_py"; "rules_python"; "rules_venv" ]}.

(** The same world with another content of the examples directory. *)
Definition with_listing (w : world) (paths : list dir_entry) : world := {|
  listing := paths;
  environ := environ w;
  shlex_split := shlex_split w;
  shlex_error := shlex_error w;
  free_port := free_port w;
  popen_error := popen_error w;
  poll_result := poll_result w;
  urlopen := urlopen w;
  exits_within_grace := exits_within_grace w
|}.

(** Seconds the method spends in [time.sleep]. *)
Definition slept (t : list event) : N :=
  foldr (fun e total => match e with Sleep s => (s + total)%N | _ => total end)
        0%N t.

(** A server that answers with something [urllib] does not wrap: the
    third read times out. *)
Definition w_read_timeout : world :=
  with_urlopen w_refused (fun i =>
    if (i <? 2)%nat then RaisesURLError "[Errno 111] Connection refused"
    else RaisesOther "TimeoutError: timed out").

(** Startup flags with an unbalanced quote. *)
Definition w_bad_flags : world := {|
  listing := [rules_venv_entry];
  environ := {[ "BAZEL_STARTUP_FLAGS" := "--output_base='/tmp/x" ]};
  shlex_split := fun _ => None;
  shlex_error := fun _ => "No closing quotation";
  free_port := 8080;
  popen_error := None;
  poll_result := None;
  urlopen := fun _ => Response "hello world!";
  exits_within_grace := true
|}.

(** No [bazel] on the [PATH]. *)
Definition w_no_bazel : world := {|
  listing := [rules_venv_entry];
  environ := {[ "HOME" := "/root" ]};
  shlex_split := fun _ => Some [];
  shlex_error := fun _ => "No closing quotation";
  free_port := 8080;
  popen_error := Some "[Errno 2] No such file or directory: 'bazel'";
  poll_result := None;
  urlopen := fun _ => Response "hello world!";
  exits_within_grace := true
|}.

(** The ways a run that spawned the process can go, as a relation between
    the world and the result. *)
Inductive launched_outcome (w : world) (example target : string)
    : verdict -> list event -> Prop :=
| outcome_exited code :
    poll_result w = Some code ->
    launched_outcome w example target
      (Failed (PrematureExit code (free_port w)))
      [ProcessPoll (Some code)]
| outcome_exhausted :
    poll_result w = None ->
    (forall i, (i <= max_tries)%nat -> is_Some (caught (urlopen w i))) ->
    launched_outcome w example target
      (Failed (Unreachable
         (omap (fun i => caught (urlopen w i)) (seq 0 (max_tries + 1)))))
      (ProcessPoll None
       :: flat_map (attempt_events (free_port w)) (seq 0 max_tries)
          ++ [UrlOpen (url_of (free_port w)) 5])
| outcome_response k content :
    poll_result w = None ->
    (k <= max_tries)%nat ->
    (forall i, (i < k)%nat -> is_Some (caught (urlopen w i))) ->
    urlopen w k = Response content ->
    launched_outcome w example target
      (if String.eqb content expected_content
       then Passed else Failed (ContentMismatch content))
      (ProcessPoll None
       :: flat_map (attempt_events (free_port w)) (seq 0 k)
          ++ [UrlOpen (url_of (free_port w)) 5])
| outcome_other k e :
    poll_result w = None ->
    (k <= max_tries)%nat ->
    (forall i, (i < k)%nat -> is_Some (caught (urlopen w i))) ->
    urlopen w k = RaisesOther e ->
    launched_outcome w example target
      (Errored (OtherError e))
      (ProcessPoll None
       :: flat_map (attempt_events (free_port w)) (seq 0 k)
          ++ [UrlOpen (url_of (free_port w)) 5]).

(** The ways a run can end without spawning the process, with the events
    between the existence check and the release of the lock. *)
Inductive unlaunched_outcome (w : world) (example target : string)
    : verdict -> list event -> Prop :=
| outcome_not_found :
    example_dir_exists w example = false ->
    unlaunched_outcome w example target
      (Failed (TargetNotFound example)) []
| outcome_bad_flags flags :
    example_dir_exists w example = true ->
    environ w !! "BAZEL_STARTUP_FLAGS" = Some flags ->
    shlex_split w flags = None ->
    unlaunched_outcome w example target
      (Errored (ValueError (shlex_error w flags)))
      [GetFreePort (free_port w)]
| outcome_popen_raises e :
    example_dir_exists w example = true ->
    match environ w !! "BAZEL_STARTUP_FLAGS" with
    | None => True
    | Some flags => is_Some (shlex_split w flags)
    end ->
    popen_error w = Some e ->
    unlaunched_outcome w example target
      (Errored (OSError e))
      [GetFreePort (free_port w);
       Print ("Running command: " +:+ join " " (cmd_of w target)
              +:+ " on port " +:+ str (free_port w))].

(** The state of a non-reentrant lock after a single thread has gone
    through a trace: [None] when it blocks on an [acquire()] of the lock
    it holds, or calls [release()] on a free lock. *)
Fixpoint lock_after (locked : bool) (t : list event) : option bool :=
  match t with
  | [] => Some locked
  | LockAcquire :: rest => if locked then None else lock_after true rest
  | LockRelease :: rest => if locked then lock_after false rest else None
  | _ :: rest => lock_after locked rest
  end.

(** ** [get_free_port] on the socket level *)

Module Socket.

Inductive socket_event :=
| SocketOpen
| SocketBind (host : string) (port : N)
| SocketListen (backlog : N)
| SocketGetsockname
| SocketClose.

(** What the operating system answers to the four socket calls; an error
    text stands for a raised [OSError]. *)
Record socket_world := {
  socket_error : option string;
  bind_error : option string;
  listen_error : option string;
  getsockname_error : option string;
  sockname : string * N
}.

(** [with socket.socket(...) as s: body]: nothing to close if the
    constructor raised; otherwise the socket is closed however [body]
    was left. *)
Definition with_socket {A} (sw : socket_world)
    (body : completion A * list socket_event)
    : completion A * list socket_event :=
  match socket_error sw with
  | Some msg => (Raised (OSError msg), [SocketOpen])
  | None =>
      match body with
      | (c, t) => (c, SocketOpen :: t ++ [SocketClose])
      end
  end.

(** One socket call that may raise, then the rest of the block. *)
Definition socket_call {A} (e : socket_event) (error : option string)
    (rest : completion A * list socket_event)
    : completion A * list socket_event :=
  match error with
  | Some msg => (Raised (OSError msg), [e])
  | None => match rest with (c, t) => (c, e :: t) end
  end.

Definition get_free_port (sw : socket_world)
    : completion N * list socket_event :=
  with_socket sw
    (socket_call (SocketBind "" 0) (bind_error sw)
       (socket_call (SocketListen 1) (listen_error sw)
          (socket_call SocketGetsockname (getsockname_error sw)
             (Normal (snd (sockname sw)), [])))).

Definition is_close (e : socket_event) : bool :=
  match e with SocketClose => true | _ => false end.

(** The port is taken by someone else between the calls: [listen] fails. *)
Definition sw_listen_fails : socket_world := {|
  socket_error := None;
  bind_error := None;
  listen_error := Some "[Errno 98] Address already in use";
  getsockname_error := None;
  sockname := ("0.0.0.0", 0%N)
|}.

Definition sw_ok : socket_world := {|
  socket_error := None;
  bind_error := None;
  listen_error := None;
  getsockname_error := None;
  sockname := ("0.0.0.0", 40123%N)
|}.

End Socket.

(** * Properties *)

(** ** The polling loop *)

(** Closes [Forall] goals over explicit event lists. *)
Ltac forall_events :=
  repeat match goal with
  | |- Forall _ [] => constructor
  | |- Forall _ (_ :: _) => constructor
  | |- Forall _ (_ ++ _) => apply Forall_app; split
  | |- _ \/ _ => first [left; reflexivity | right; reflexivity]
  | |- _ => first [assumption | reflexivity | discriminate]
  end.

Section Polling.
Variable w : world.
Variable port : N.

Lemma attempt_caught i logs reg msg :
  caught (urlopen w i) = Some msg ->
  attempt w port i logs reg
  = (Normal (logs ++ [msg]), attempt_events port i, reg).
Proof.
  unfold attempt, attempt_events, bind, emit, ret.
  destruct (urlopen w i); simpl; intros H; inversion H; subst;
    destruct (i <? max_tries)%nat; reflexivity.
Qed.

Lemma attempt_response i logs reg content :
  urlopen w i = Response content ->
  attempt w port i logs reg
  = (if String.eqb content expected_content
     then Returned
     else Raised (AssertionError (ContentMismatch content)),
     [UrlOpen (url_of port) 5], reg).
Proof.
  unfold attempt, bind, emit, fail, raise, return_. intros ->.
  destruct (String.eqb content expected_content); reflexivity.
Qed.

(** While every attempt is caught the loop runs to its end. *)
Lemma poll_loop_caught indices : forall logs reg,
  Forall (fun i => is_Some (caught (urlopen w i))) indices ->
  poll_loop w port indices logs reg
  = (Normal (logs ++ omap (fun i => caught (urlopen w i)) indices),
     flat_map (attempt_events port) indices, reg).
Proof.
  induction indices as [|i rest IH]; intros logs reg Hall.
  - simpl. unfold ret. by rewrite app_nil_r.
  - inversion Hall as [|? ? [msg Hmsg] Hrest]; subst.
    cbn [poll_loop omap list_omap flat_map]. unfold bind at 1.
    rewrite (attempt_caught _ _ _ _ Hmsg), IH by assumption.
    rewrite Hmsg, <- app_assoc. reflexivity.
Qed.

(** The first returned response ends the loop on the spot. *)
Lemma poll_loop_response pre k post content : forall logs reg,
  Forall (fun i => is_Some (caught (urlopen w i))) pre ->
  urlopen w k = Response content ->
  poll_loop w port (pre ++ k :: post) logs reg
  = (if String.eqb content expected_content
     then Returned
     else Raised (AssertionError (ContentMismatch content)),
     flat_map (attempt_events port) pre ++ [UrlOpen (url_of port) 5], reg).
Proof.
  induction pre as [|i rest IH]; intros logs reg Hall Hk.
  - cbn [app poll_loop flat_map]. unfold bind.
    rewrite (attempt_response _ _ _ _ Hk).
    destruct (String.eqb content expected_content); reflexivity.
  - inversion Hall as [|? ? [msg Hmsg] Hrest]; subst.
    cbn [app poll_loop flat_map]. unfold bind at 1.
    rewrite (attempt_caught _ _ _ _ Hmsg), IH by assumption.
    destruct (String.eqb content expected_content);
      by rewrite <- app_assoc.
Qed.

(** Whatever the world answers, the loop leaves the registry alone, does
    not look at it, and emits nothing but requests and five-second sleeps. *)
Lemma poll_loop_shape indices : forall logs,
  exists c t,
    (forall reg, poll_loop w port indices logs reg = (c, t, reg))
    /\ Forall (fun e => e = UrlOpen (url_of port) 5 \/ e = Sleep 5) t.
Proof.
  induction indices as [|i rest IH]; intros logs.
  - eexists _, _. split; [reflexivity | constructor].
  - cbn [poll_loop]. unfold bind at 1, attempt, bind, emit, fail, raise, return_, ret.
    destruct (urlopen w i) as [content|code msg|reason|e].
    + destruct (String.eqb content expected_content);
        eexists _, _; (split; [reflexivity|]); forall_events.
    + destruct (i <? max_tries)%nat;
        match goal with
        | |- context [poll_loop w port rest ?l _] =>
            destruct (IH l) as (c & t & Hrest & Ht)
        end;
        eexists _, _; (split; [intros reg; rewrite Hrest; reflexivity|]);
        forall_events.
    + destruct (i <? max_tries)%nat;
        match goal with
        | |- context [poll_loop w port rest ?l _] =>
            destruct (IH l) as (c & t & Hrest & Ht)
        end;
        eexists _, _; (split; [intros reg; rewrite Hrest; reflexivity|]);
        forall_events.
    + eexists _, _; (split; [reflexivity|]); forall_events.
Qed.
End Polling.

(** ** The method as a whole *)

Section Method.
Variable w : world.
Variables example target : string.

Lemma cleanup_closed reg :
  cleanup w reg = (Normal tt, cleanup_events w, reg).
Proof.
  unfold cleanup, cleanup_events, bind, emit, ret.
  destruct (exits_within_grace w); reflexivity.
Qed.

Lemma try_body_exited port reg code :
  poll_result w = Some code ->
  try_body w port reg
  = (Raised (AssertionError (PrematureExit code port)),
     [ProcessPoll (Some code)], reg).
Proof.
  intros H. unfold try_body, process_poll, bind, emit, ret, fail, raise.
  rewrite H. reflexivity.
Qed.

Lemma try_body_running port reg :
  poll_result w = None ->
  try_body w port reg
  = match poll_loop w port (seq 0 (max_tries + 1)) [] reg with
    | (c, t, reg') => (c, ProcessPoll None :: t, reg')
    end.
Proof.
  intros H. unfold try_body, process_poll, bind, emit, ret.
  rewrite H.
  destruct (poll_loop w port (seq 0 (max_tries + 1)) [] reg) as [[c t] r].
  reflexivity.
Qed.

Lemma try_body_shape port :
  exists c t,
    (forall reg,
       try_body w port reg = (c, ProcessPoll (poll_result w) :: t, reg))
    /\ Forall (fun e => e = UrlOpen (url_of port) 5 \/ e = Sleep 5) t.
Proof.
  destruct (poll_result w) as [code|] eqn:H.
  - eexists _, []. split; [|constructor].
    intros reg. by rewrite (try_body_exited _ _ _ H).
  - destruct (poll_loop_shape w port (seq 0 (max_tries + 1)) [])
      as (c & t & Hloop & Ht).
    eexists _, _. split; [|exact Ht].
    intros reg. by rewrite (try_body_running _ _ H), Hloop.
Qed.

Lemma run_not_found reg :
  example_dir_exists w example = false ->
  _run_flask_target w example target reg
  = (Raised (AssertionError (TargetNotFound example)),
     [LockAcquire; RegistryAdd example; PathExists example false; LockRelease],
     {[example]} ∪ reg).
Proof.
  intros H.
  unfold _run_flask_target, with_lock, try_finally, bind, registry_add,
    path_exists, assertTrue, emit, ret, raise.
  rewrite H. reflexivity.
Qed.

Lemma run_launched reg :
  launches w example = true ->
  _run_flask_target w example target reg
  = match try_body w (free_port w) ({[example]} ∪ reg) with
    | (c, t, reg') =>
        (after_try c,
         prologue w example target ++ t ++ cleanup_events w ++ [LockRelease],
         reg')
    end.
Proof.
  unfold launches. intros H.
  apply andb_prop in H as [H Hpopen]. apply andb_prop in H as [Hdir Hflags].
  apply bool_decide_eq_true in Hpopen.
  unfold _run_flask_target, with_lock, try_finally, bind at 1 2 3 4 5 6 7 8,
    registry_add, path_exists, assertTrue, get_free_port, startup_args,
    popen, prologue, cmd_of, args_of.
  rewrite Hdir, Hpopen.
  assert (Hargs :
    match environ w !! "BAZEL_STARTUP_FLAGS" with
    | Some flags =>
        match shlex_split w flags with
        | Some args => ret args
        | None => raise (ValueError (shlex_error w flags))
        end
    | None => ret []
    end
    = ret (match environ w !! "BAZEL_STARTUP_FLAGS" with
           | Some flags => default [] (shlex_split w flags)
           | None => []
           end)).
  { destruct (environ w !! "BAZEL_STARTUP_FLAGS") as [flags|]; [|reflexivity].
    apply bool_decide_eq_true in Hflags as [args ->]. reflexivity. }
  rewrite Hargs. clear Hargs.
  unfold bind, emit, ret, fail, raise.
  destruct (try_body w (free_port w) ({[example]} ∪ reg)) as [[c t] reg'].
  rewrite cleanup_closed.
  destruct c; cbn [after_try app]; rewrite <- ?app_assoc; reflexivity.
Qed.
End Method.

(** ** Counting events *)

Lemma attempts_app t1 t2 : attempts (t1 ++ t2) = (attempts t1 + attempts t2)%nat.
Proof. unfold attempts. by rewrite List.filter_app, length_app. Qed.

Lemma sleeps_app t1 t2 : sleeps (t1 ++ t2) = (sleeps t1 + sleeps t2)%nat.
Proof. unfold sleeps. by rewrite List.filter_app, length_app. Qed.

Lemma attempts_attempt_events port indices :
  attempts (flat_map (attempt_events port) indices) = length indices.
Proof.
  induction indices as [|i rest IH]; [reflexivity|].
  cbn [flat_map]. rewrite attempts_app, IH.
  unfold attempt_events. destruct (i <? max_tries)%nat; reflexivity.
Qed.

Lemma sleeps_attempt_events port indices :
  Forall (fun i => (i < max_tries)%nat) indices ->
  sleeps (flat_map (attempt_events port) indices) = length indices.
Proof.
  induction 1 as [|i rest Hi _ IH]; [reflexivity|].
  cbn [flat_map]. rewrite sleeps_app, IH.
  unfold attempt_events. apply Nat.ltb_lt in Hi. rewrite Hi. reflexivity.
Qed.

Lemma attempts_prologue w example target : attempts (prologue w example target) = 0%nat.
Proof. reflexivity. Qed.

Lemma sleeps_prologue w example target : sleeps (prologue w example target) = 0%nat.
Proof. reflexivity. Qed.

Lemma attempts_cleanup w : attempts (cleanup_events w) = 0%nat.
Proof. unfold cleanup_events. destruct (exits_within_grace w); reflexivity. Qed.

Lemma sleeps_cleanup w : sleeps (cleanup_events w) = 0%nat.
Proof. unfold cleanup_events. destruct (exits_within_grace w); reflexivity. Qed.

Lemma attempts_poll code t : attempts (ProcessPoll code :: t) = attempts t.
Proof. reflexivity. Qed.

Lemma sleeps_poll code t : sleeps (ProcessPoll code :: t) = sleeps t.
Proof. reflexivity. Qed.

(** Pushes [attempts] and [sleeps] through the closed form of a trace. *)
Ltac count_events :=
  rewrite ?attempts_app, ?sleeps_app, ?attempts_poll, ?sleeps_poll,
    ?attempts_app, ?sleeps_app,
    ?attempts_prologue, ?sleeps_prologue, ?attempts_cleanup, ?sleeps_cleanup,
    ?attempts_attempt_events.

Lemma filter_nil_of_Forall {A} (f : A -> bool) (l : list A) :
  Forall (fun a => f a = false) l -> List.filter f l = [].
Proof.
  induction 1 as [|a l Ha _ IH]; [reflexivity|].
  cbn. rewrite Ha. exact IH.
Qed.

Lemma length_omap_all {A B} (f : A -> option B) (l : list A) :
  Forall (fun a => is_Some (f a)) l -> length (omap f l) = length l.
Proof.
  induction 1 as [|a l [b Hb] _ IH]; [reflexivity|].
  cbn [omap list_omap]. rewrite Hb. cbn. by rewrite IH.
Qed.

Lemma Forall_seq_lt (P : nat -> Prop) n :
  (forall i, (i < n)%nat -> P i) -> Forall P (seq 0 n).
Proof.
  intros H. apply List.Forall_forall. intros i Hi.
  apply in_seq in Hi. apply H. lia.
Qed.

Lemma connection_level_error_caught r :
  connection_level_error r = true -> is_Some (caught r).
Proof. destruct r; try discriminate. intros _. eexists. reflexivity. Qed.

(** ** Closed forms of whole runs *)

Section Runs.
Variable w : world.
Variables example target : string.
Variable reg : gset string.
Hypothesis Hlaunch : launches w example = true.
Hypothesis Hrunning : poll_result w = None.

(** Every attempt is caught: the loop runs out. *)
Lemma run_all_caught :
  (forall i, (i <= max_tries)%nat -> is_Some (caught (urlopen w i))) ->
  _run_flask_target w example target reg
  = (Raised (AssertionError (Unreachable
       (omap (fun i => caught (urlopen w i)) (seq 0 (max_tries + 1))))),
     prologue w example target
     ++ (ProcessPoll None
         :: flat_map (attempt_events (free_port w)) (seq 0 (max_tries + 1)))
     ++ cleanup_events w ++ [LockRelease],
     {[example]} ∪ reg).
Proof.
  intros Hall.
  rewrite (run_launched _ _ _ _ Hlaunch), (try_body_running _ _ _ Hrunning).
  rewrite poll_loop_caught; [reflexivity|].
  apply Forall_seq_lt. intros i Hi. apply Hall. lia.
Qed.

(** Attempt [k] is the first one on which [urlopen] returns. *)
Lemma run_first_response k content :
  (k <= max_tries)%nat ->
  (forall i, (i < k)%nat -> is_Some (caught (urlopen w i))) ->
  urlopen w k = Response content ->
  _run_flask_target w example target reg
  = (if String.eqb content expected_content
     then Returned
     else Raised (AssertionError (ContentMismatch content)),
     prologue w example target
     ++ (ProcessPoll None
         :: flat_map (attempt_events (free_port w)) (seq 0 k)
            ++ [UrlOpen (url_of (free_port w)) 5])
     ++ cleanup_events w ++ [LockRelease],
     {[example]} ∪ reg).
Proof.
  intros Hk Hbefore Hresp.
  rewrite (run_launched _ _ _ _ Hlaunch), (try_body_running _ _ _ Hrunning).
  replace (seq 0 (max_tries + 1))
    with (seq 0 k ++ k :: seq (S k) (max_tries - k)).
  2:{ change (k :: seq (S k) (max_tries - k)) with (seq k (S (max_tries - k))).
      rewrite <- seq_app. f_equal. lia. }
  rewrite (poll_loop_response _ _ _ _ _ content);
    [| by apply Forall_seq_lt | assumption].
  destruct (String.eqb content expected_content); reflexivity.
Qed.
End Runs.

(** ** Attempt exhaustion *)

(** C1, as the code has it.  If the process is launched and alive and every
    polling attempt raises a connection-level error, the loop over
    [range(max_tries + 1)] issues exactly 31 requests, sleeps five seconds
    after each of the first 30, and the verification fails as unreachable
    with a log of exactly 31 entries, one per attempt. *)
Theorem exhaustion_takes_31_attempts w example target reg :
  launches w example = true ->
  poll_result w = None ->
  (forall i, (i <= max_tries)%nat -> connection_level_error (urlopen w i) = true) ->
  let r := run w example target reg in
  attempts (run_trace r) = 31%nat
  /\ sleeps (run_trace r) = 30%nat
  /\ exists logs,
       run_verdict r = Failed (Unreachable logs) /\ length logs = 31%nat.
Proof.
  intros Hlaunch Hrunning Hall r. subst r. unfold run.
  assert (Hcaught : forall i, (i <= max_tries)%nat -> is_Some (caught (urlopen w i))).
  { intros i Hi. apply connection_level_error_caught, Hall, Hi. }
  rewrite (run_all_caught _ _ _ _ Hlaunch Hrunning Hcaught).
  cbn [run_trace run_verdict verdict_of].
  repeat split.
  - count_events. reflexivity.
  - replace (seq 0 (max_tries + 1)) with (seq 0 max_tries ++ [max_tries])
      by reflexivity.
    rewrite flat_map_app. count_events.
    rewrite sleeps_attempt_events by (apply Forall_seq_lt; auto).
    reflexivity.
  - eexists. split; [reflexivity|].
    rewrite length_omap_all; [reflexivity|].
    apply Forall_seq_lt. intros i Hi. apply Hcaught. unfold max_tries in *. lia.
Qed.

Lemma exhaustion_takes_31_attempts_witness :
  let r := run w_refused "rules_venv" "//:flask_hello_world.pex" ∅ in
  attempts (run_trace r) = 31%nat
  /\ sleeps (run_trace r) = 30%nat
  /\ exists logs,
       run_verdict r = Failed (Unreachable logs) /\ length logs = 31%nat.
Proof.
  apply (exhaustion_takes_31_attempts w_refused); [reflexivity | reflexivity |].
  intros i _. reflexivity.
Defined.

(** C1 as worded fails: with every connection refused the run does not
    stop at 30 requests, and the log does not have 30 entries. *)
Lemma thirty_attempts_refuted :
  let r := run w_refused "rules_venv" "//:flask_hello_world.pex" ∅ in
  launches w_refused "rules_venv" = true
  /\ (forall i, connection_level_error (urlopen w_refused i) = true)
  /\ ~ (attempts (run_trace r) = 30%nat
        /\ exists logs,
             run_verdict r = Failed (Unreachable logs) /\ length logs = 30%nat).
Proof.
  split; [reflexivity|]. split; [intros i; reflexivity|].
  intros [Hattempts _]. vm_compute in Hattempts. discriminate.
Qed.

(** ** What stops the loop and what is retried *)

(** C2, as the code has it.  In a launched, live run: (1) polling stops at
    the first attempt on which [urlopen] returns a response, provided every
    earlier attempt raised [HTTPError] or [URLError]; that response's body
    alone decides the verdict.  (2) A reply with an error status is raised
    as [HTTPError] and is logged and retried exactly like a connection-level
    [URLError]: if all attempts end in one or the other, all 31 are made and
    the log lists [str(exc)] of each, in order. *)
Theorem polling_stops_at_returned_response w example target reg :
  launches w example = true ->
  poll_result w = None ->
  let r := run w example target reg in
  (forall k content,
      (k <= max_tries)%nat ->
      (forall i, (i < k)%nat -> is_Some (caught (urlopen w i))) ->
      urlopen w k = Response content ->
      attempts (run_trace r) = S k
      /\ run_verdict r
         = if String.eqb content expected_content
           then Passed else Failed (ContentMismatch content))
  /\ ((forall i, (i <= max_tries)%nat -> is_Some (caught (urlopen w i))) ->
      attempts (run_trace r) = S max_tries
      /\ run_verdict r
         = Failed (Unreachable
             (omap (fun i => caught (urlopen w i)) (seq 0 (max_tries + 1))))).
Proof.
  intros Hlaunch Hrunning r. subst r. unfold run. split.
  - intros k content Hk Hbefore Hresp.
    rewrite (run_first_response _ _ _ _ Hlaunch Hrunning k content Hk Hbefore Hresp).
    cbn [run_trace run_verdict]. split.
    + count_events. rewrite length_seq. cbn. lia.
    + destruct (String.eqb content expected_content); reflexivity.
  - intros Hcaught.
    rewrite (run_all_caught _ _ _ _ Hlaunch Hrunning Hcaught).
    cbn [run_trace run_verdict verdict_of]. split; [|reflexivity].
    count_events. reflexivity.
Qed.

Lemma polling_stops_at_returned_response_witness :
  let r := run w_500_then_hello "rules_venv" "//:flask_hello_world.pex" ∅ in
  attempts (run_trace r) = 2%nat /\ run_verdict r = Passed.
Proof.
  refine (proj1 (polling_stops_at_returned_response w_500_then_hello
                   "rules_venv" "//:flask_hello_world.pex" ∅ _ _)
            1%nat "hello world!" _ _ _).
  - reflexivity.
  - reflexivity.
  - unfold max_tries. lia.
  - intros i Hi. assert (i = 0%nat) as -> by lia. eexists. reflexivity.
  - reflexivity.
Defined.

(** C2 as worded fails: a reply with status 500 is an HTTP response, yet
    polling does not stop at that attempt; it is retried and the body that
    counts is that of the second request. *)
Lemma error_status_is_retried :
  let r := run w_500_then_hello "rules_venv" "//:flask_hello_world.pex" ∅ in
  launches w_500_then_hello "rules_venv" = true
  /\ yields_http_response (urlopen w_500_then_hello 0) = true
  /\ connection_level_error (urlopen w_500_then_hello 0) = false
  /\ ~ attempts (run_trace r) = 1%nat
  /\ run_verdict r = Passed.
Proof.
  repeat split; try reflexivity.
  intros H. vm_compute in H. discriminate.
Qed.

(** ** The verdict on the first response *)

(** C3, as the code has it.  In a launched, live run, let attempt [k] be
    the first on which [urlopen] returns a response (the earlier ones raised
    [HTTPError] or [URLError] and were retried).  If the body is ["hello world!"] the verification passes;
    otherwise it fails with the content mismatch.  Either way the request
    of attempt [k] is the last one: it is followed directly by the cleanup,
    [k + 1] requests were made in all, and exactly one of them returned a
    response. *)
Theorem first_response_decides w example target reg k content :
  launches w example = true ->
  poll_result w = None ->
  (k <= max_tries)%nat ->
  (forall i, (i < k)%nat -> is_Some (caught (urlopen w i))) ->
  urlopen w k = Response content ->
  let r := run w example target reg in
  (content = "hello world!" -> run_verdict r = Passed)
  /\ (content <> "hello world!" -> run_verdict r = Failed (ContentMismatch content))
  /\ run_trace r
     = prologue w example target
       ++ (ProcessPoll None
           :: flat_map (attempt_events (free_port w)) (seq 0 k)
              ++ [UrlOpen (url_of (free_port w)) 5])
       ++ cleanup_events w ++ [LockRelease]
  /\ attempts (run_trace r) = S k
  /\ length (List.filter (fun i => is_response (urlopen w i)) (seq 0 (S k))) = 1%nat.
Proof.
  intros Hlaunch Hrunning Hk Hbefore Hresp r. subst r. unfold run.
  rewrite (run_first_response _ _ _ _ Hlaunch Hrunning k content Hk Hbefore Hresp).
  cbn [run_trace run_verdict]. repeat split.
  - intros ->. reflexivity.
  - intros Hne. apply String.eqb_neq in Hne.
    unfold expected_content. rewrite Hne. reflexivity.
  - count_events. rewrite length_seq. cbn. lia.
  - rewrite seq_S, List.filter_app. cbn [List.filter Nat.add].
    rewrite Hresp. cbn [is_response].
    replace (List.filter _ (seq 0 k)) with (@nil nat); [reflexivity|].
    symmetry. apply filter_nil_of_Forall, Forall_seq_lt.
    intros i Hi. destruct (Hbefore i Hi) as [msg Hmsg].
    destruct (urlopen w i); try discriminate; reflexivity.
Qed.

Lemma first_response_decides_witness :
  let r := run w_goodbye "rules_venv" "//:flask_hello_world.scie" ∅ in
  run_verdict r = Failed (ContentMismatch "goodbye world")
  /\ attempts (run_trace r) = 3%nat.
Proof.
  pose proof (first_response_decides w_goodbye
                "rules_venv" "//:flask_hello_world.scie" ∅ 2 "goodbye world") as H.
  cbv zeta in H.
  destruct H as (_ & Hbad & _ & Hn & _).
  - reflexivity.
  - reflexivity.
  - unfold max_tries. lia.
  - intros i Hi. destruct i as [|[|i]]; [eexists; reflexivity ..| lia].
  - reflexivity.
  - split; [apply Hbad; discriminate | exact Hn].
Defined.

(** C3 as worded fails: the first attempt whose connection succeeds may be
    answered with an error status.  With a 500 first and the wrong page
    second, the first successful connection decides nothing: the run makes
    a second request and fails on the body of that one, after two
    successful connections. *)
Lemma first_connection_does_not_decide :
  let w := w_500_then_goodbye in
  let r := run w "rules_venv" "//:flask_hello_world.pex" ∅ in
  launches w "rules_venv" = true
  /\ yields_http_response (urlopen w 0) = true
  /\ ~ attempts (run_trace r) = 1%nat
  /\ run_verdict r = Failed (ContentMismatch "goodbye world")
  /\ length (List.filter (fun i => yields_http_response (urlopen w i))
               (seq 0 (attempts (run_trace r)))) = 2%nat.
Proof.
  split; [reflexivity|]. split; [reflexivity|].
  split; [intros H; vm_compute in H; discriminate|].
  split; vm_compute; reflexivity.
Qed.

(** The spec's own scenario: a server that says ["goodbye world"] on the
    first request fails the test after that single request. *)
Example goodbye_world_fails_at_once :
  let r := run (with_urlopen w_refused (fun _ => Response "goodbye world"))
               "rules_venv" "//:flask_hello_world.pex" ∅ in
  run_verdict r = Failed (ContentMismatch "goodbye world")
  /\ attempts (run_trace r) = 1%nat
  /\ sleeps (run_trace r) = 0%nat.
Proof. vm_compute. repeat split. Qed.

(** ** The liveness check after the spawn *)

Lemma polling_events_not (f : event -> bool) port t :
  f (UrlOpen (url_of port) 5) = false ->
  f (Sleep 5) = false ->
  Forall (fun e => e = UrlOpen (url_of port) 5 \/ e = Sleep 5) t ->
  Forall (fun e => f e = false) t.
Proof.
  intros Hu Hs Ht. eapply List.Forall_impl; [|exact Ht].
  intros e [-> | ->]; assumption.
Qed.

(** C4.  In a run that spawns the process, [process.poll()] is called
    exactly once, as the very next action after [Popen].  If it reports an
    exit code, the verification fails with the premature exit carrying that
    code, and the trace holds no HTTP request. *)
Theorem liveness_checked_once_after_spawn w example target reg :
  launches w example = true ->
  let r := run w example target reg in
  length (List.filter is_poll (run_trace r)) = 1%nat
  /\ (exists before cmd cwd env rest,
        run_trace r
        = before ++ Popen cmd cwd env :: ProcessPoll (poll_result w) :: rest)
  /\ (forall code,
        poll_result w = Some code ->
        run_verdict r = Failed (PrematureExit code (free_port w))
        /\ attempts (run_trace r) = 0%nat).
Proof.
  intros Hlaunch r. subst r. unfold run.
  rewrite (run_launched _ _ _ _ Hlaunch).
  destruct (try_body_shape w (free_port w)) as (c & t & Hbody & Ht).
  specialize (Hbody ({[example]} ∪ reg)).
  rewrite Hbody. cbn [run_trace run_verdict]. repeat split.
  - rewrite !List.filter_app.
    cbn [List.filter is_poll prologue app].
    rewrite (filter_nil_of_Forall is_poll t)
      by (eapply polling_events_not; [| |exact Ht]; reflexivity).
    unfold cleanup_events. destruct (exits_within_grace w); reflexivity.
  - unfold prologue. eexists [_; _; _; _; _], _, _, _, _. reflexivity.
  - rewrite (try_body_exited _ _ _ _ H) in Hbody.
    inversion Hbody; subst. reflexivity.
  - rewrite (try_body_exited _ _ _ _ H) in Hbody.
    inversion Hbody; subst. count_events. reflexivity.
Qed.

Lemma liveness_checked_once_after_spawn_witness :
  let r := run w_exited "rules_venv" "//:flask_hello_world.pex" ∅ in
  length (List.filter is_poll (run_trace r)) = 1%nat
  /\ run_verdict r = Failed (PrematureExit 1 8080)
  /\ attempts (run_trace r) = 0%nat.
Proof.
  pose proof (liveness_checked_once_after_spawn w_exited
                "rules_venv" "//:flask_hello_world.pex" ∅) as H.
  cbv zeta in H.
  destruct H as (Honce & _ & Hexit); [reflexivity|].
  destruct (Hexit 1%Z) as [Hv Hn]; [reflexivity|].
  repeat split; assumption.
Defined.

(** ** Cleanup *)

(** C5, as the code has it.  Whatever the verdict of a run that spawned
    the process, its trace ends with the cleanup sequence and nothing else
    but the release of the lock: [terminate()], [wait(timeout=5)], then, only if that wait timed
    out, [kill()] and a [wait()] without timeout, then [sleep(1)].  The
    spawn precedes it and no cleanup action happens before it starts. *)
Theorem cleanup_runs_on_every_exit w example target reg :
  launches w example = true ->
  let r := run w example target reg in
  exists before,
    run_trace r
    = before
      ++ [Terminate; WaitTimeout 5 (exits_within_grace w)]
      ++ (if exits_within_grace w then [] else [Kill; Wait])
      ++ [Sleep 1; LockRelease]
    /\ Exists (fun e => is_popen e = true) before
    /\ Forall (fun e => is_cleanup_event e = false) before.
Proof.
  intros Hlaunch r. subst r. unfold run.
  rewrite (run_launched _ _ _ _ Hlaunch).
  destruct (try_body_shape w (free_port w)) as (c & t & Hbody & Ht).
  rewrite Hbody. cbn [run_trace].
  exists (prologue w example target ++ ProcessPoll (poll_result w) :: t).
  split; [|split].
  - rewrite <- app_assoc. f_equal. f_equal.
    unfold cleanup_events. destruct (exits_within_grace w); reflexivity.
  - apply Exists_app. left. unfold prologue.
    do 5 apply List.Exists_cons_tl. apply List.Exists_cons_hd. reflexivity.
  - apply Forall_app. split.
    + unfold prologue. forall_events.
    + constructor; [reflexivity|].
      eapply polling_events_not; [| |exact Ht]; reflexivity.
Qed.

Lemma cleanup_runs_on_every_exit_witness :
  exists before,
    run_trace (run w_stubborn "rules_venv" "//:flask_hello_world.pex" ∅)
    = before ++ [Terminate; WaitTimeout 5 false; Kill; Wait; Sleep 1; LockRelease].
Proof.
  destruct (cleanup_runs_on_every_exit w_stubborn
              "rules_venv" "//:flask_hello_world.pex" ∅) as (before & Ht & _).
  - reflexivity.
  - exists before. exact Ht.
Defined.

(** C5 as worded fails: the wait without a timeout is not a step of every
    cleanup.  When the process exits within the five seconds, the passing
    run has no [kill()] and no untimed [wait()]: the timed wait is followed
    directly by the one-second pause. *)
Lemma untimed_wait_only_after_kill :
  let r := run w_hello "rules_venv" "//:flask_hello_world.pex" ∅ in
  launches w_hello "rules_venv" = true
  /\ run_verdict r = Passed
  /\ ~ In Wait (run_trace r)
  /\ skipn (length (run_trace r) - 4) (run_trace r)
     = [Terminate; WaitTimeout 5 true; Sleep 1; LockRelease].
Proof.
  split; [reflexivity|]. split; [vm_compute; reflexivity|].
  split; [|vm_compute; reflexivity].
  intros Hin.
  assert (Hnone : forallb (fun e => negb (is_untimed_wait e))
                    (run_trace (run w_hello "rules_venv"
                                  "//:flask_hello_world.pex" ∅)) = true)
    by (vm_compute; reflexivity).
  rewrite List.forallb_forall in Hnone.
  specialize (Hnone Wait Hin). discriminate.
Qed.

(** Each of the four exits named by the spec does occur. *)
Example every_exit_path_occurs :
  run_verdict (run w_hello "rules_venv" "//:t" ∅) = Passed
  /\ run_verdict (run w_goodbye "rules_venv" "//:t" ∅)
     = Failed (ContentMismatch "goodbye world")
  /\ run_verdict (run w_exited "rules_venv" "//:t" ∅)
     = Failed (PrematureExit 1 8080)
  /\ exists logs,
       run_verdict (run w_refused "rules_venv" "//:t" ∅)
       = Failed (Unreachable logs).
Proof. repeat split. eexists. vm_compute. reflexivity. Qed.

(** ** Runs that never spawn *)

(** C7.  When the example directory does not exist the verification fails
    with the target-not-found condition right after the existence check:
    the only actions are taking the lock, registering the name, the check
    itself, and releasing the lock.  No port is acquired and no process is
    spawned. *)
Theorem missing_target_fails_before_launch w example target reg :
  example_dir_exists w example = false ->
  let r := run w example target reg in
  run_verdict r = Failed (TargetNotFound example)
  /\ run_trace r
     = [LockAcquire; RegistryAdd example; PathExists example false; LockRelease]
  /\ Forall (fun e => is_popen e = false) (run_trace r).
Proof.
  intros Hmissing r. subst r. unfold run.
  rewrite (run_not_found _ _ _ _ Hmissing).
  cbn [run_trace run_verdict verdict_of]. repeat split. forall_events.
Qed.

Lemma missing_target_fails_before_launch_witness :
  let r := run w_refused "rules_rust" "//:flask_hello_world.pex" ∅ in
  run_verdict r = Failed (TargetNotFound "rules_rust")
  /\ Forall (fun e => is_popen e = false) (run_trace r).
Proof.
  destruct (missing_target_fails_before_launch w_refused
              "rules_rust" "//:flask_hello_world.pex" ∅) as (Hv & _ & Hp).
  - reflexivity.
  - split; assumption.
Defined.

Section NoSpawn.
Variable w : world.
Variables example target : string.
Variable reg : gset string.
Hypothesis Hfound : example_dir_exists w example = true.

(** [shlex.split] rejects the startup flags. *)
Lemma run_flags_error flags :
  environ w !! "BAZEL_STARTUP_FLAGS" = Some flags ->
  shlex_split w flags = None ->
  _run_flask_target w example target reg
  = (Raised (ValueError (shlex_error w flags)),
     [LockAcquire; RegistryAdd example; PathExists example true;
      GetFreePort (free_port w); LockRelease],
     {[example]} ∪ reg).
Proof.
  intros Hflags Hsplit.
  unfold _run_flask_target, with_lock, try_finally, bind, registry_add,
    path_exists, assertTrue, get_free_port, startup_args, emit, ret, raise.
  rewrite Hfound, Hflags, Hsplit. reflexivity.
Qed.

(** [Popen] raises. *)
Lemma run_popen_error e :
  match environ w !! "BAZEL_STARTUP_FLAGS" with
  | None => True
  | Some flags => is_Some (shlex_split w flags)
  end ->
  popen_error w = Some e ->
  _run_flask_target w example target reg
  = (Raised (OSError e),
     [LockAcquire; RegistryAdd example; PathExists example true;
      GetFreePort (free_port w);
      Print ("Running command: " +:+ join " " (cmd_of w target)
             +:+ " on port " +:+ str (free_port w));
      LockRelease],
     {[example]} ∪ reg).
Proof.
  intros Hflags Hpopen.
  unfold _run_flask_target, with_lock, try_finally, bind at 1 2 3 4 5 6 7 8,
    registry_add, path_exists, assertTrue, get_free_port, startup_args,
    popen, cmd_of, args_of.
  rewrite Hfound, Hpopen.
  destruct (environ w !! "BAZEL_STARTUP_FLAGS") as [flags|].
  - destruct Hflags as [args ->]. reflexivity.
  - reflexivity.
Qed.
End NoSpawn.

(** Every run, whatever the world does: the lock brackets everything, the
    name is registered first, the registry gains exactly that name, and
    neither the trace nor the way the method leaves depends on what the
    registry held before. *)
Lemma run_shape w example target :
  exists c body,
    (forall reg,
       _run_flask_target w example target reg
       = (c,
          LockAcquire :: RegistryAdd example
          :: PathExists example (example_dir_exists w example)
          :: body ++ [LockRelease],
          {[example]} ∪ reg))
    /\ Forall (fun e => is_lock_event e = false) body.
Proof.
  destruct (example_dir_exists w example) eqn:Hfound.
  2:{ eexists _, []. split; [|constructor].
      intros reg. by rewrite (run_not_found _ _ _ _ Hfound). }
  destruct (launches w example) eqn:Hlaunch.
  - destruct (try_body_shape w (free_port w)) as (c & t & Hbody & Ht).
    eexists _, (_ :: _ :: _ :: (ProcessPoll _ :: t) ++ cleanup_events w).
    split.
    + intros reg. rewrite (run_launched _ _ _ _ Hlaunch), Hbody.
      unfold prologue. cbn [app]. rewrite <- app_assoc. reflexivity.
    + do 4 (constructor; [reflexivity|]).
      apply Forall_app. split.
      * eapply polling_events_not; [| |exact Ht]; reflexivity.
      * unfold cleanup_events. destruct (exits_within_grace w); forall_events.
  - unfold launches in Hlaunch. rewrite Hfound in Hlaunch. cbn [andb] in Hlaunch.
    destruct (environ w !! "BAZEL_STARTUP_FLAGS") as [flags|] eqn:Hflags.
    + destruct (shlex_split w flags) as [args|] eqn:Hsplit.
      * rewrite bool_decide_eq_true_2 in Hlaunch by eauto. cbn [andb] in Hlaunch.
        apply bool_decide_eq_false in Hlaunch.
        destruct (popen_error w) as [e|] eqn:Hpopen; [|done].
        eexists _, [_; _]. split; [intros reg|].
        { rewrite (run_popen_error w example target reg Hfound e);
            [reflexivity | by rewrite Hflags, Hsplit | done]. }
        forall_events.
      * eexists _, [_]. split; [intros reg|].
        { by rewrite (run_flags_error w example target reg Hfound flags Hflags Hsplit). }
        forall_events.
    + cbn [andb] in Hlaunch. apply bool_decide_eq_false in Hlaunch.
      destruct (popen_error w) as [e|] eqn:Hpopen; [|done].
      eexists _, [_; _]. split; [intros reg|].
      { rewrite (run_popen_error w example target reg Hfound e);
          [reflexivity | by rewrite Hflags | done]. }
      forall_events.
Qed.

(** ** The coverage audit *)

Lemma elem_of_discover paths : forall acc x,
  x ∈ discover paths acc
  <-> x ∈ acc
      \/ exists path, path ∈ paths /\ entry_name path = x /\ is_example_dir path = true.
Proof.
  induction paths as [|path rest IH]; intros acc x; cbn [discover].
  - split; [auto|]. intros [H | (p & Hp & _)]; [exact H|]. inversion Hp.
  - assert (Hskip : is_example_dir path = false ->
      (x ∈ acc \/ (exists p, p ∈ rest /\ entry_name p = x /\ is_example_dir p = true))
      <-> (x ∈ acc \/ (exists p, p ∈ path :: rest /\ entry_name p = x
                                /\ is_example_dir p = true))).
    { intros Hno. split.
      - intros [H | (p & Hp & Hn & He)]; [auto|].
        right. exists p. split; [apply elem_of_cons; by right|auto].
      - intros [H | (p & Hp & Hn & He)]; [auto|].
        apply elem_of_cons in Hp as [-> | Hp]; [congruence|].
        right. exists p. auto. }
    unfold is_example_dir in *.
    destruct (entry_is_dir path) eqn:Hdir; cbn [negb andb] in *.
    2:{ rewrite IH. by apply Hskip. }
    destruct (String.prefix "." (entry_name path)) eqn:Hdot;
      cbn [negb andb orb] in *.
    1:{ rewrite IH. by apply Hskip. }
    destruct (String.eqb (entry_name path) "__pycache__") eqn:Hcache;
      cbn [negb andb orb] in *.
    1:{ rewrite IH. by apply Hskip. }
    destruct (entry_has_build path) eqn:Hbuild.
    2:{ rewrite IH. by apply Hskip. }
    rewrite IH, elem_of_union, elem_of_singleton. split.
    + intros [[-> | H] | (p & Hp & Hn & He)].
      * right. exists path. split; [apply elem_of_cons; by left|].
        rewrite Hdir, Hdot, Hcache, Hbuild. auto.
      * auto.
      * right. exists p. split; [apply elem_of_cons; by right|auto].
    + intros [H | (p & Hp & Hn & He)]; [auto|].
      apply elem_of_cons in Hp as [-> | Hp]; [auto|].
      right. exists p. auto.
Qed.

(** The discovered names are names of children of the directory. *)
Lemma discovered_exists w x :
  x ∈ discover (listing w) ∅ -> example_dir_exists w x = true.
Proof.
  rewrite elem_of_discover. intros [H | (p & Hp & Hn & _)]; [set_solver|].
  unfold example_dir_exists. apply existsb_exists.
  exists p. split; [by apply list_elem_of_In|].
  by apply String.eqb_eq.
Qed.

Lemma elem_of_sorted names x : x ∈ sorted names <-> x ∈ names.
Proof.
  unfold sorted. rewrite merge_sort_Permutation. apply elem_of_elements.
Qed.

Lemma sorted_is_sorted names : Sorted String.le (sorted names).
Proof. apply (Sorted_merge_sort String.le). Qed.

Lemma sorted_NoDup names : NoDup (sorted names).
Proof.
  unfold sorted. rewrite merge_sort_Permutation. apply NoDup_elements.
Qed.

Lemma nonempty_true names : nonempty names = true <-> names ≠ ∅.
Proof. unfold nonempty. apply bool_decide_eq_true. Qed.

Lemma nonempty_false names : nonempty names = false <-> names = ∅.
Proof.
  unfold nonempty. rewrite bool_decide_eq_false.
  split; [|intros -> H; by apply H].
  intros H. destruct (decide (names = ∅)); [assumption | contradiction].
Qed.

Lemma difference_nonempty (X Y : gset string) : X ⊈ Y -> X ∖ Y ≠ ∅.
Proof.
  intros Hsub Hempty. apply Hsub. intros x Hx.
  destruct (decide (x ∈ Y)) as [|Hout]; [assumption|].
  assert (x ∈ X ∖ Y) as Hin by (apply elem_of_difference; auto).
  rewrite Hempty in Hin. by apply not_elem_of_empty in Hin.
Qed.

Lemma difference_empty (X Y : gset string) : X ⊆ Y -> X ∖ Y = ∅.
Proof. set_solver. Qed.

(** The three outcomes of the audit in terms of the two sets. *)
Lemma audit_cases w (tested : gset string) :
  let example_dirs := discover (listing w) ∅ in
  (example_dirs ⊈ tested ->
   exists names,
     tearDownClass w tested = Some (NotTested names)
     /\ forall x, x ∈ names <-> x ∈ example_dirs /\ x ∉ tested)
  /\ (example_dirs ⊆ tested -> tested ⊈ example_dirs ->
      exists names,
        tearDownClass w tested = Some (NonExistent names)
        /\ forall x, x ∈ names <-> x ∈ tested /\ x ∉ example_dirs)
  /\ (tested = example_dirs -> tearDownClass w tested = None).
Proof.
  intros example_dirs. repeat split.
  - intros Huntested. apply difference_nonempty, nonempty_true in Huntested.
    unfold tearDownClass. fold example_dirs. rewrite Huntested.
    eexists. split; [reflexivity|].
    intros x. rewrite elem_of_sorted. set_solver.
  - intros Hall Hphantom.
    apply difference_empty, nonempty_false in Hall.
    apply difference_nonempty, nonempty_true in Hphantom.
    unfold tearDownClass. fold example_dirs. rewrite Hall, Hphantom.
    eexists. split; [reflexivity|].
    intros x. rewrite elem_of_sorted. set_solver.
  - intros ->. unfold tearDownClass. fold example_dirs.
    assert (nonempty (example_dirs ∖ example_dirs) = false) as ->
      by (apply nonempty_false; set_solver).
    reflexivity.
Qed.

(** C6, as the code has it.  [example_dirs] holds exactly the names of the
    children of the examples directory that are directories, are neither
    hidden nor [__pycache__], and contain [BUILD.bazel].  (1) If one of them
    was not tested the audit fails and lists, sorted and without repeats,
    exactly the discovered names that were not tested.  (2) If all of them
    were tested and some tested name is not among them, the audit fails and
    lists exactly the tested names that were not discovered.  (3) If the two
    sets are equal the audit passes. *)
Theorem audit_reports w (tested : gset string) :
  let example_dirs := discover (listing w) ∅ in
  (forall x,
     x ∈ example_dirs
     <-> exists path,
           path ∈ listing w /\ entry_name path = x
           /\ entry_is_dir path = true
           /\ String.prefix "." x = false
           /\ x <> "__pycache__"
           /\ entry_has_build path = true)
  /\ (example_dirs ⊈ tested ->
      exists names,
        tearDownClass w tested = Some (NotTested names)
        /\ Sorted String.le names /\ NoDup names
        /\ forall x, x ∈ names <-> x ∈ example_dirs /\ x ∉ tested)
  /\ (example_dirs ⊆ tested -> tested ⊈ example_dirs ->
      exists names,
        tearDownClass w tested = Some (NonExistent names)
        /\ Sorted String.le names /\ NoDup names
        /\ forall x, x ∈ names <-> x ∈ tested /\ x ∉ example_dirs)
  /\ (tested = example_dirs -> tearDownClass w tested = None).
Proof.
  intros example_dirs. repeat split.
  - subst example_dirs. rewrite elem_of_discover.
    intros [H | (p & Hp & Hn & He)]; [set_solver|].
    exists p. unfold is_example_dir in He.
    apply andb_prop in He as [He Hbuild]. apply andb_prop in He as [He Hcache].
    apply andb_prop in He as [Hdir Hdot].
    apply negb_true_iff in Hdot, Hcache. apply String.eqb_neq in Hcache.
    subst x. auto 10.
  - intros (p & Hp & Hn & Hdir & Hdot & Hcache & Hbuild).
    subst example_dirs. rewrite elem_of_discover. right. exists p.
    unfold is_example_dir. subst x. apply String.eqb_neq in Hcache.
    rewrite Hdir, Hdot, Hcache, Hbuild. auto.
  - intros Huntested. apply difference_nonempty, nonempty_true in Huntested.
    unfold tearDownClass. fold example_dirs. rewrite Huntested.
    eexists. split; [reflexivity|].
    split; [apply sorted_is_sorted|]. split; [apply sorted_NoDup|].
    intros x. rewrite elem_of_sorted. set_solver.
  - intros Hall Hphantom.
    apply difference_empty, nonempty_false in Hall.
    apply difference_nonempty, nonempty_true in Hphantom.
    unfold tearDownClass. fold example_dirs. rewrite Hall, Hphantom.
    eexists. split; [reflexivity|].
    split; [apply sorted_is_sorted|]. split; [apply sorted_NoDup|].
    intros x. rewrite elem_of_sorted. set_solver.
  - intros ->. unfold tearDownClass. fold example_dirs.
    assert (nonempty (example_dirs ∖ example_dirs) = false) as ->
      by (apply nonempty_false; set_solver).
    reflexivity.
Qed.

Lemma audit_reports_witness :
  (exists names,
     tearDownClass w_two_examples {["rules_venv"]} = Some (NotTested names)
     /\ "rules_python" ∈ names)
  /\ (exists names,
        tearDownClass w_two_examples
          {["rules_venv"; "rules_python"; "docs"; "aspect_rules_py"]}
        = Some (NonExistent names)
        /\ "docs" ∈ names)
  /\ tearDownClass w_two_examples {["rules_venv"; "rules_python"]} = None.
Proof.
  assert (Hdirs : discover (listing w_two_examples) ∅
                  = ({["rules_python"; "rules_venv"]} : gset string))
    by (vm_compute; reflexivity).
  split; [|split].
  - destruct (audit_reports w_two_examples {["rules_venv"]})
      as (_ & Huntested & _).
    destruct Huntested as (names & Hraise & _ & _ & Hnames).
    + rewrite Hdirs. intros Hsub.
      assert ("rules_python" ∈ ({["rules_venv"]} : gset string)) as H
        by (apply Hsub; set_solver).
      apply elem_of_singleton in H. discriminate.
    + exists names. split; [exact Hraise|].
      apply Hnames. rewrite Hdirs. split; [set_solver|].
      intros H. apply elem_of_singleton in H. discriminate.
  - destruct (audit_reports w_two_examples
                {["rules_venv"; "rules_python"; "docs"; "aspect_rules_py"]})
      as (_ & _ & Hphantom & _).
    destruct Hphantom as (names & Hraise & _ & _ & Hnames).
    + rewrite Hdirs. set_solver.
    + rewrite Hdirs. intros Hsub.
      assert ("docs" ∈ ({["rules_python"; "rules_venv"]} : gset string)) as H
        by (apply Hsub; set_solver).
      apply elem_of_union in H as [H | H]; apply elem_of_singleton in H;
        discriminate.
    + exists names. split; [exact Hraise|].
      apply Hnames. rewrite Hdirs. split; [set_solver|].
      intros H.
      apply elem_of_union in H as [H | H]; apply elem_of_singleton in H;
        discriminate.
  - apply (audit_reports w_two_examples {["rules_venv"; "rules_python"]}).
    rewrite Hdirs. set_solver.
Defined.

(** The spec's two scenarios, and a passing audit. *)
Example audit_scenarios :
  tearDownClass w_two_examples {["rules_venv"]}
  = Some (NotTested ["rules_python"])
  /\ tearDownClass w_two_examples
       {["rules_venv"; "rules_python"; "docs"; "aspect_rules_py"]}
     = Some (NonExistent ["aspect_rules_py"; "docs"])
  /\ tearDownClass w_two_examples {["rules_venv"; "rules_python"]} = None.
Proof. vm_compute. repeat split. Qed.

(** C6 as worded fails where both conditions hold at once: the untested
    check comes first and raises, so a tested name without a directory is
    not reported. *)
Lemma phantom_report_refuted :
  let tested : gset string := {["rules_rust"]} in
  "rules_rust" ∈ tested
  /\ example_dir_exists w_refused "rules_rust" = false
  /\ tearDownClass w_refused tested = Some (NotTested ["rules_venv"])
  /\ ~ exists names, tearDownClass w_refused tested = Some (NonExistent names).
Proof.
  split; [by apply elem_of_singleton|].
  split; [reflexivity|]. split; [by vm_compute|].
  intros [names H]. vm_compute in H. discriminate.
Qed.

(** ** The registry of tested examples *)

(** C9.  Every call adds [example] to [_tested_examples] and nothing else,
    whatever the verdict, and does so right after taking the lock, before
    the existence check.  In particular a call for a directory that does
    not exist leaves its name in the registry; the audit then cannot pass,
    and once every discovered directory has been tested it fails with the
    non-existent report, which lists that name. *)
Theorem every_call_registers w example target reg :
  let r := run w example target reg in
  run_registry r = {[example]} ∪ reg
  /\ (exists rest,
        run_trace r
        = LockAcquire :: RegistryAdd example
          :: PathExists example (example_dir_exists w example) :: rest)
  /\ (example_dir_exists w example = false ->
      example ∈ run_registry r
      /\ tearDownClass w (run_registry r) <> None
      /\ (discover (listing w) ∅ ⊆ run_registry r ->
          exists names,
            tearDownClass w (run_registry r) = Some (NonExistent names)
            /\ example ∈ names)).
Proof.
  intros r. subst r. unfold run.
  destruct (run_shape w example target) as (c & body & Hrun & _).
  rewrite Hrun. cbn [run_registry run_trace]. split; [reflexivity|].
  split; [eexists; reflexivity|].
  intros Hmissing.
  assert (Hin : example ∈ {[example]} ∪ reg) by (apply elem_of_union; left; by apply elem_of_singleton).
  assert (Hout : example ∉ discover (listing w) ∅).
  { intros H. apply discovered_exists in H. congruence. }
  assert (Hphantom : {[example]} ∪ reg ⊈ discover (listing w) ∅).
  { intros Hsub. apply Hout, Hsub, Hin. }
  split; [exact Hin|]. split.
  - unfold tearDownClass.
    destruct (nonempty (discover (listing w) ∅ ∖ ({[example]} ∪ reg)));
      [discriminate|].
    apply difference_nonempty, nonempty_true in Hphantom.
    rewrite Hphantom. discriminate.
  - intros Hall.
    destruct (audit_cases w ({[example]} ∪ reg)) as (_ & Hcase & _).
    destruct (Hcase Hall Hphantom) as (names & Hraise & Hnames).
    exists names. split; [exact Hraise|]. apply Hnames. auto.
Qed.

Lemma every_call_registers_witness :
  let r := run w_refused "rules_rust" "//:flask_hello_world.pex" {["rules_venv"]} in
  "rules_rust" ∈ run_registry r
  /\ exists names,
       tearDownClass w_refused (run_registry r) = Some (NonExistent names)
       /\ "rules_rust" ∈ names.
Proof.
  destruct (every_call_registers w_refused
              "rules_rust" "//:flask_hello_world.pex" {["rules_venv"]})
    as (Hreg & _ & Hmissing).
  destruct Hmissing as (Hin & _ & Hphantom); [reflexivity|].
  split; [exact Hin|]. apply Hphantom.
  rewrite Hreg.
  replace (discover (listing w_refused) ∅) with ({["rules_venv"]} : gset string)
    by (vm_compute; reflexivity).
  set_solver.
Defined.

(** ** The example application *)

Module FlaskHelloWorldFacts.
Import FlaskHelloWorld.

Lemma uint_chars_digits d :
  Forall (fun c => is_Some (digit_of c) /\ is_space c = false) (uint_chars d).
Proof.
  induction d; constructor; try assumption; split; try reflexivity; eexists; reflexivity.
Qed.

Lemma lstrip_digits l :
  Forall (fun c => is_Some (digit_of c) /\ is_space c = false) l -> lstrip l = l.
Proof. destruct 1 as [|c l [_ Hc] _]; [reflexivity|]. cbn. by rewrite Hc. Qed.

Lemma strip_digits l :
  Forall (fun c => is_Some (digit_of c) /\ is_space c = false) l -> strip l = l.
Proof.
  intros H. unfold strip. rewrite (lstrip_digits l H).
  rewrite lstrip_digits by (by apply Forall_rev).
  apply rev_involutive.
Qed.

(** Evaluates [digit_of] on the literal characters in the goal. *)
Ltac eval_digits :=
  repeat match goal with
  | |- context [digit_of ?c] =>
      let v := eval vm_compute in (digit_of c) in
      change (digit_of c) with v
  end.

Lemma parse_digits_pos d : forall p,
  parse_digits (uint_chars d) (Npos p) true = Some (Npos (Pos.of_uint_acc d p)).
Proof.
  unfold uint_chars.
  induction d; intros p;
    cbn [NilEmpty.string_of_uint list_ascii_of_string parse_digits
         Pos.of_uint_acc];
    eval_digits; cbv iota;
    [reflexivity | rewrite <- IHd; f_equal; lia ..].
Qed.

Lemma parse_digits_zero d :
  parse_digits (uint_chars d) 0 true = Some (Pos.of_uint d).
Proof.
  unfold uint_chars.
  induction d;
    cbn [NilEmpty.string_of_uint list_ascii_of_string parse_digits
         Pos.of_uint];
    eval_digits; cbv iota;
    [reflexivity | exact IHd | apply (parse_digits_pos d) ..].
Qed.

Lemma parse_digits_start d acc :
  d <> Decimal.Nil ->
  parse_digits (uint_chars d) acc false = parse_digits (uint_chars d) acc true.
Proof. destruct d; [congruence | reflexivity ..]. Qed.

Lemma to_uint_not_nil n : N.to_uint n <> Decimal.Nil.
Proof.
  destruct n as [|p]; [discriminate|].
  cbn. intros H.
  pose proof (DecimalPos.Unsigned.to_uint_nonnil p). congruence.
Qed.

(** A numeral is at least its leading part times the power of ten of
    what follows. *)
Lemma of_uint_acc_lower d : forall p,
  (Npos p * 10 ^ N.of_nat (Decimal.nb_digits d)
   <= Npos (Pos.of_uint_acc d p))%N.
Proof.
  induction d; intros p; cbn [Pos.of_uint_acc Decimal.nb_digits];
    [rewrite N.pow_0_r; lia | ..];
    (etransitivity; [|apply IHd]);
    rewrite Nat2N.inj_succ, N.pow_succ_r';
    (apply N.le_trans
       with (N.pos p * 10 * 10 ^ N.of_nat (Decimal.nb_digits d))%N;
     [lia|]);
    apply N.mul_le_mono_r; lia.
Qed.

(** The decimal numeral of a positive number starts with a digit other
    than zero. *)
Lemma to_uint_head p :
  match Pos.to_uint p with
  | Decimal.Nil | Decimal.D0 _ => False
  | _ => True
  end.
Proof.
  pose proof (DecimalPos.Unsigned.to_of (Pos.to_uint p)) as Hnorm.
  rewrite DecimalPos.Unsigned.of_to in Hnorm. cbn [N.to_uint] in Hnorm.
  pose proof (DecimalPos.Unsigned.to_uint_nonzero p) as Hnz.
  pose proof (DecimalPos.Unsigned.to_uint_nonnil p) as Hnn.
  destruct (Pos.to_uint p) as [|l| | | | | | | | |] eqn:Hd; try exact I.
  - congruence.
  - rewrite DecimalFacts.unorm_D0 in Hnorm.
    destruct (Decimal.uint_eq_dec l Decimal.Nil) as [-> | Hl].
    + by apply Hnz.
    + pose proof (DecimalFacts.nb_digits_unorm l Hl) as Hle.
      rewrite <- Hnorm in Hle. cbn [Decimal.nb_digits] in Hle. lia.
Qed.

(** A number below [10 ^ k] is written with at most [k] digits. *)
Lemma nb_digits_bound n k :
  (n < 10 ^ k)%N -> (0 < k)%N ->
  (N.of_nat (Decimal.nb_digits (N.to_uint n)) <= k)%N.
Proof.
  intros Hn Hk. destruct n as [|p]; [cbn; lia|].
  cbn [N.to_uint].
  pose proof (to_uint_head p) as Hhead.
  pose proof (DecimalPos.Unsigned.of_to p) as Hval.
  assert (Hlow : forall l q,
            Pos.of_uint_acc l q = p ->
            (N.of_nat (S (Decimal.nb_digits l)) <= k)%N).
  { intros l q Hq.
    pose proof (of_uint_acc_lower l q) as Hle. rewrite Hq in Hle.
    assert (10 ^ N.of_nat (Decimal.nb_digits l) < 10 ^ k)%N as Hpow.
    { eapply N.le_lt_trans; [|exact Hn].
      eapply N.le_trans; [|exact Hle].
      rewrite <- (N.mul_1_l (10 ^ _)) at 1. apply N.mul_le_mono_r. lia. }
    apply N.pow_lt_mono_r_iff in Hpow; lia. }
  destruct (Pos.to_uint p) as [|l|l|l|l|l|l|l|l|l|l]; try contradiction;
    cbn [Pos.of_uint Decimal.nb_digits] in *;
    injection Hval as Hval; exact (Hlow _ _ Hval).
Qed.

Lemma digit_count_uint d :
  digit_count (uint_chars d) = N.of_nat (Decimal.nb_digits d).
Proof.
  unfold digit_count, uint_chars. f_equal.
  induction d;
    cbn [NilEmpty.string_of_uint list_ascii_of_string List.filter
         Decimal.nb_digits];
    eval_digits; cbv iota; cbn [length]; congruence.
Qed.

(** [int(str(n)) == n] for every non-negative [n] whose decimal text is
    within the digit limit. *)
Lemma int_of_string_str n :
  (n < 10 ^ int_max_str_digits)%N ->
  int_of_string (str n) = Some (Z.of_N n).
Proof.
  intros Hn. unfold int_of_string, str.
  fold (uint_chars (N.to_uint n)).
  rewrite strip_digits by apply uint_chars_digits.
  assert (Hparse : parse_literal (uint_chars (N.to_uint n)) = Some n).
  { unfold parse_literal. rewrite digit_count_uint.
    pose proof (nb_digits_bound n int_max_str_digits Hn eq_refl) as Hle.
    apply N.ltb_ge in Hle. rewrite Hle.
    rewrite parse_digits_start by apply to_uint_not_nil.
    rewrite parse_digits_zero.
    f_equal. apply (DecimalN.Unsigned.of_to n). }
  pose proof (to_uint_not_nil n) as Hnil.
  destruct (N.to_uint n); [congruence | ..];
    unfold uint_chars in *;
    cbn [NilEmpty.string_of_uint list_ascii_of_string] in *;
    rewrite Hparse; reflexivity.
Qed.

Lemma hello_world_port_of_str (environ : gmap string string) n :
  (n < 10 ^ int_max_str_digits)%N ->
  environ !! "FLASK_RUN_PORT" = Some (str n) ->
  main "__main__" environ = AppRun (Z.of_N n).
Proof.
  intros Hn H. unfold main, environ_get.
  cbn [String.eqb Ascii.eqb Bool.eqb andb].
  rewrite H. cbn [int]. by rewrite int_of_string_str.
Qed.

(** Every port number is far below the digit limit. *)
Lemma port_within_digit_limit n :
  (n < 65536)%N -> (n < 10 ^ int_max_str_digits)%N.
Proof.
  intros Hn. eapply N.lt_trans; [exact Hn|].
  apply N.lt_le_trans with (10 ^ 5)%N; [reflexivity|].
  apply N.pow_le_mono_r; [discriminate|]. unfold int_max_str_digits. lia.
Qed.

(** C10.  The handler registered for ["/"] is [hello_world], which returns
    exactly ["hello world!"].  Run as the main program, the application
    calls [app.run] with port 5000 when [FLASK_RUN_PORT] is unset, and
    otherwise with the integer that [int] reads from the variable's value;
    for a value written by [str(n)], with [n] within the interpreter's
    digit limit, that integer is [n]. *)
Theorem hello_world_on_configured_port :
  (forall u, hello_world u = "hello world!")
  /\ url_map !! "/" = Some hello_world
  /\ (forall environ : gmap string string,
        environ !! "FLASK_RUN_PORT" = None ->
        main "__main__" environ = AppRun 5000)
  /\ (forall (environ : gmap string string) value port,
        environ !! "FLASK_RUN_PORT" = Some value ->
        int_of_string value = Some port ->
        main "__main__" environ = AppRun port)
  /\ (forall (environ : gmap string string) n,
        (n < 10 ^ int_max_str_digits)%N ->
        environ !! "FLASK_RUN_PORT" = Some (str n) ->
        main "__main__" environ = AppRun (Z.of_N n)).
Proof.
  split; [reflexivity|]. split; [apply lookup_singleton_eq|].
  unfold main, environ_get. cbn [String.eqb Ascii.eqb Bool.eqb andb].
  repeat split.
  - intros environ ->. reflexivity.
  - intros environ value port -> Hint. cbn [int]. by rewrite Hint.
  - intros environ n. apply hello_world_port_of_str.
Qed.

Lemma hello_world_on_configured_port_witness :
  main "__main__" ∅ = AppRun 5000
  /\ main "__main__" {[ "FLASK_RUN_PORT" := " +8_080 " ]} = AppRun 8080
  /\ main "__main__" {[ "FLASK_RUN_PORT" := str 8080 ]} = AppRun 8080.
Proof.
  destruct hello_world_on_configured_port as (_ & _ & Hunset & Hset & Hstr).
  split; [|split].
  - apply Hunset. reflexivity.
  - apply (Hset _ " +8_080 "); reflexivity.
  - apply (Hstr _ 8080%N); [|reflexivity].
    apply port_within_digit_limit. reflexivity.
Defined.

(** The port the harness picks is the port the launched application
    serves on: the environment handed to [Popen] makes [main] call
    [app.run] with that very port.  The port is a TCP port number, below
    65536. *)
Lemma harness_port_reaches_app w example target reg :
  (free_port w < 65536)%N ->
  launches w example = true ->
  exists cmd cwd env,
    Popen cmd cwd env ∈ run_trace (run w example target reg)
    /\ main "__main__" env = AppRun (Z.of_N (free_port w)).
Proof.
  intros Hport Hlaunch. unfold run. rewrite (run_launched _ _ _ _ Hlaunch).
  destruct (try_body w (free_port w) ({[example]} ∪ reg)) as [[c t] reg'].
  cbn [run_trace]. eexists _, _, _. split.
  - apply elem_of_app. left. unfold prologue.
    do 5 (apply elem_of_cons; right). apply elem_of_cons. left. reflexivity.
  - apply hello_world_port_of_str; [|apply lookup_insert_eq].
    by apply port_within_digit_limit.
Qed.

(** Values [int] rejects make the application die with [ValueError]. *)
Example bad_port_raises :
  main "__main__" {[ "FLASK_RUN_PORT" := "http" ]} = RaisesValueError
  /\ main "__main__" {[ "FLASK_RUN_PORT" := "80_" ]} = RaisesValueError
  /\ main "__main__" {[ "FLASK_RUN_PORT" := "" ]} = RaisesValueError
  /\ main "flask_hello_world" {[ "FLASK_RUN_PORT" := "80" ]} = Imported.
Proof. repeat split. Qed.

(** The separator characters 28 to 31 are not whitespace for [int], and a
    literal of 4301 digits is over the limit while one of 4300 is not. *)
Example int_rejects_separators_and_long_literals :
  int_of_string (String (ascii_of_nat 28) "8080") = None
  /\ int_of_string (String.append "8080" (String (ascii_of_nat 31) "")) = None
  /\ int_of_string (String (ascii_of_nat 12) "8080") = Some 8080%Z
  /\ int_of_string (string_of_list_ascii (repeat "7"%char 4301)) = None
  /\ is_Some (int_of_string (string_of_list_ascii (repeat "7"%char 4300))).
Proof.
  split; [vm_compute; reflexivity|].
  split; [vm_compute; reflexivity|].
  split; [vm_compute; reflexivity|].
  split; [vm_compute; reflexivity|].
  vm_compute. eexists. reflexivity.
Qed.

End FlaskHelloWorldFacts.

(** ** Mutual exclusion *)

Lemma program_bracketed c : bracketed (program c).
Proof.
  unfold program, run.
  destruct (run_shape (call_world c) (call_example c) (call_target c))
    as (cmp & body & Hrun & Hbody).
  rewrite Hrun. cbn [run_trace].
  exists (RegistryAdd (call_example c)
          :: PathExists (call_example c)
               (example_dir_exists (call_world c) (call_example c))
          :: body).
  split; [reflexivity|]. do 2 (constructor; [reflexivity|]). exact Hbody.
Qed.

Lemma bracketed_head p e rest :
  bracketed p -> p = e :: rest -> e = LockAcquire /\ rest <> [].
Proof.
  intros (body & -> & _) H. inversion H; subst. split; [reflexivity|].
  by destruct body.
Qed.

(** Past its first action, a bracketed program either is at its final
    [release()] or at an action that is not a lock operation and is not
    the last. *)
Lemma bracketed_next p done e rest :
  bracketed p -> p = done ++ e :: rest -> done <> [] ->
  (e = LockRelease /\ rest = []) \/ (is_lock_event e = false /\ rest <> []).
Proof.
  intros (body & -> & Hbody) Heq Hdone.
  destruct done as [|d done']; [congruence|].
  inversion Heq as [[Hd Htail]]. clear Heq Hdone.
  destruct (decide (rest = [])) as [-> | Hrest].
  - left. apply app_inj_tail in Htail as [_ ->]. auto.
  - right. split; [|assumption].
    destruct (exists_last Hrest) as (rest0 & x & ->).
    change (done' ++ e :: rest0 ++ [x]) with (done' ++ (e :: rest0) ++ [x]) in Htail.
    rewrite app_assoc in Htail.
    apply app_inj_tail in Htail as [-> _].
    apply Forall_app in Hbody as [_ Hbody].
    by inversion Hbody.
Qed.

Section Scheduling.
Variable programs : list (list event).
Hypothesis Hbracketed : Forall bracketed programs.

Lemma program_at i p : programs !! i = Some p -> bracketed p.
Proof.
  intros H. eapply List.Forall_forall; [exact Hbracketed|].
  apply list_elem_of_In. eapply list_elem_of_lookup_2. exact H.
Qed.

Lemma serial_snoc order j p :
  programs !! j = Some p ->
  serial programs (order ++ [j]) = serial programs order ++ tagged j p.
Proof.
  intros H. unfold serial. rewrite flat_map_app. cbn [flat_map].
  rewrite H. cbn [default]. by rewrite app_nil_r.
Qed.

Lemma serialized_step s labels l s' :
  serialized programs s labels -> step s l s' ->
  serialized programs s' (labels ++ [l]).
Proof.
  intros (order & current & Hnodup & Hlabels & Hdone & Hcur) Hstep.
  assert (Hfresh : forall i e rest, snd s !! i = Some (e :: rest) -> i ∉ order).
  { intros i e rest Hi Hin. rewrite (Hdone i Hin) in Hi. discriminate. }
  destruct Hcur as [(-> & Hlock & Hidle)
                   | (j & done & rest & Hj & Hprog & Hne & Hrest & Hpool & -> & Hlock & Hidle)].
  - (* nobody holds the lock: the only possible action is an [acquire()] *)
    rewrite app_nil_r in Hlabels.
    assert (Hstart : forall i e rest,
               snd s !! i = Some (e :: rest) ->
               (i ∉ order) /\ programs !! i = Some (e :: rest)
               /\ e = LockAcquire /\ rest <> []).
    { intros i e rest Hi. pose proof (Hfresh _ _ _ Hi) as Hout.
      pose proof Hi as Hp. rewrite (Hidle i Hout) in Hp.
      destruct (bracketed_head _ e rest (program_at _ _ Hp) eq_refl); auto. }
    inversion Hstep as [pool i rest Hi | pool i rest Hi | lk pool i e rest Hi He];
      subst; unfold serialized; cbn [fst snd] in *.
    + destruct (Hstart _ _ _ Hi) as (Hout & Hp & _ & Hrest).
      exists order, (tagged i [LockAcquire]).
      split; [assumption|]. split; [reflexivity|]. split.
      { intros k Hk. rewrite list_lookup_insert_ne; [by apply Hdone|].
        intros ->. contradiction. }
      right. exists i, [LockAcquire], rest.
      repeat split; try assumption; try discriminate.
      * apply list_lookup_insert_eq. eapply lookup_lt_Some. exact Hi.
      * intros k Hk Hki. rewrite list_lookup_insert_ne by auto. by apply Hidle.
    + discriminate.
    + destruct (Hstart _ _ _ Hi) as (_ & _ & -> & _). discriminate.
  - (* thread [j] holds the lock: only [j] can move *)
    assert (Hmine : forall i e rest',
               snd s !! i = Some (e :: rest') -> i <> j -> e = LockAcquire).
    { intros i e rest' Hi Hij. pose proof Hi as Hp.
      rewrite (Hidle i (Hfresh _ _ _ Hi) Hij) in Hp.
      by destruct (bracketed_head _ e rest' (program_at _ _ Hp) eq_refl). }
    assert (Hnext : forall e rest',
               snd s !! j = Some (e :: rest') ->
               rest = e :: rest'
               /\ ((e = LockRelease /\ rest' = [])
                   \/ (is_lock_event e = false /\ rest' <> []))).
    { intros e rest' Hi. rewrite Hpool in Hi. inversion Hi; subst.
      split; [reflexivity|].
      eapply bracketed_next; [exact (program_at _ _ Hprog) | reflexivity | assumption]. }
    inversion Hstep as [pool i rest' Hi | pool i rest' Hi | lk pool i e rest' Hi He];
      subst; unfold serialized; cbn [fst snd] in *.
    + discriminate.
    + (* [release()] *)
      destruct (decide (i = j)) as [-> | Hij];
        [| by pose proof (Hmine _ _ _ Hi Hij)].
      destruct (Hnext _ _ Hi) as (-> & [[_ ->] | [He _]]); [|discriminate].
      exists (order ++ [j]), [].
      split. { apply NoDup_app. repeat split; [assumption| |apply NoDup_singleton].
               intros k Hk Hkj. apply list_elem_of_singleton in Hkj. by subst. }
      split. { rewrite (serial_snoc _ _ _ Hprog), app_nil_r, <- app_assoc.
               unfold tagged. by rewrite map_app. }
      split. { intros k Hk. apply elem_of_app in Hk as [Hk | Hk].
               - rewrite list_lookup_insert_ne; [by apply Hdone|].
                 intros ->. contradiction.
               - apply list_elem_of_singleton in Hk as ->.
                 apply list_lookup_insert_eq. eapply lookup_lt_Some. exact Hi. }
      left. repeat split.
      intros k Hk. rewrite list_lookup_insert_ne.
      * apply Hidle; intros Hin; apply Hk; apply elem_of_app; [by left|].
        right. apply list_elem_of_singleton. done.
      * intros ->. apply Hk, elem_of_app. right. by apply list_elem_of_singleton.
    + (* an action under the lock *)
      destruct (decide (i = j)) as [-> | Hij];
        [| pose proof (Hmine _ _ _ Hi Hij); subst; discriminate].
      destruct (Hnext _ _ Hi) as (-> & [[-> _] | [_ Hrest']]); [discriminate|].
      exists order, (tagged j (done ++ [e])).
      split; [assumption|].
      split. { unfold tagged. by rewrite map_app, <- app_assoc. }
      split. { intros k Hk. rewrite list_lookup_insert_ne; [by apply Hdone|].
               intros ->. contradiction. }
      right. exists j, (done ++ [e]), rest'.
      repeat split; try assumption.
      * by rewrite <- app_assoc.
      * by destruct done.
      * apply list_lookup_insert_eq. eapply lookup_lt_Some. exact Hi.
      * intros k Hk Hkj. rewrite list_lookup_insert_ne by auto. by apply Hidle.
Qed.

Lemma serialized_exec labels s :
  exec (false, programs) labels s -> serialized programs s labels.
Proof.
  remember (false, programs) as s0 eqn:Hs0.
  induction 1 as [s | s labels s' l s'' _ IH Hstep]; subst.
  - exists [], []. repeat split; [constructor | by inversion 1 |].
    left. repeat split.
  - eapply serialized_step; [apply IH; reflexivity | exact Hstep].
Qed.
End Scheduling.

(** A schedule can also be read from its first action on. *)
Lemma exec_cons s l s' labels s'' :
  step s l s' -> exec s' labels s'' -> exec s (l :: labels) s''.
Proof.
  intros Hstep Hexec.
  induction Hexec as [s' | s' labels s1 l1 s2 _ IH Hstep1].
  - apply (exec_snoc s [] s); [apply exec_nil | exact Hstep].
  - change (l :: labels ++ [l1]) with ((l :: labels) ++ [l1]).
    eapply exec_snoc; [apply IH, Hstep | exact Hstep1].
Qed.

Lemma launched_program_span c :
  launches (call_world c) (call_example c) = true ->
  exists mid,
    program c = LockAcquire :: mid ++ [Sleep 1; LockRelease]
    /\ GetFreePort (free_port (call_world c)) ∈ mid.
Proof.
  intros Hlaunch. unfold program, run.
  rewrite (run_launched _ _ _ _ Hlaunch).
  destruct (try_body_shape (call_world c) (free_port (call_world c)))
    as (cmp & t & Hbody & _).
  rewrite Hbody. cbn [run_trace]. unfold prologue, cleanup_events.
  destruct (exits_within_grace (call_world c)).
  - eexists (_ :: _ :: _ :: _ :: _ :: _ :: t ++ [_; _]). split.
    + cbn [app]. do 7 f_equal. rewrite <- app_assoc. reflexivity.
    + do 2 (apply elem_of_cons; right). apply elem_of_cons. by left.
  - eexists (_ :: _ :: _ :: _ :: _ :: _ :: t ++ [_; _; _; _]). split.
    + cbn [app]. do 7 f_equal. rewrite <- app_assoc. reflexivity.
    + do 2 (apply elem_of_cons; right). apply elem_of_cons. by left.
Qed.

Lemma bracketed_inside p before e after :
  bracketed p -> p = before ++ e :: after -> is_lock_event e = false ->
  LockAcquire ∈ before /\ LockRelease ∈ after.
Proof.
  intros Hp Heq He.
  destruct before as [|b before].
  - destruct (bracketed_head _ _ _ Hp Heq) as [-> _]. discriminate.
  - destruct (bracketed_next _ (b :: before) e after Hp Heq) as [[-> _] | [_ Hafter]];
      [discriminate | discriminate |].
    destruct Hp as (body & -> & _). inversion Heq as [[Hb Htail]].
    split; [apply elem_of_cons; by left|].
    destruct (exists_last Hafter) as (after0 & x & ->).
    change (before ++ e :: after0 ++ [x])
      with (before ++ (e :: after0) ++ [x]) in Htail.
    rewrite app_assoc in Htail. apply app_inj_tail in Htail as [_ <-].
    apply elem_of_app. right. by apply list_elem_of_singleton.
Qed.

(** C8.  (1) Every call takes the lock as its first action, releases it as
    its last, and does not touch it in between, so each of its other actions
    happens while it holds the lock; in a call that spawns the process the
    port acquisition comes after the [acquire()] and the one-second pause is
    the last action before the [release()].  (2) However the scheduler
    interleaves the threads, the actions taken so far are those of some
    threads run to completion one after the other, followed by the actions
    of at most one thread that is under way and holds the lock: no action of
    a call falls between two actions of another call. *)
Theorem runs_never_overlap (calls : list call) labels s :
  let programs := map program calls in
  Forall bracketed programs
  /\ (forall c before e after,
        program c = before ++ e :: after -> is_lock_event e = false ->
        LockAcquire ∈ before /\ LockRelease ∈ after)
  /\ (forall c,
        launches (call_world c) (call_example c) = true ->
        exists mid,
          program c = LockAcquire :: mid ++ [Sleep 1; LockRelease]
          /\ GetFreePort (free_port (call_world c)) ∈ mid)
  /\ (exec (false, programs) labels s ->
      exists order current,
        NoDup order
        /\ labels = serial programs order ++ current
        /\ ((current = [] /\ fst s = false)
            \/ exists j done rest,
                 (j ∉ order)
                 /\ programs !! j = Some (done ++ rest)
                 /\ done <> [] /\ rest <> []
                 /\ current = tagged j done
                 /\ fst s = true)).
Proof.
  intros programs.
  assert (Hall : Forall bracketed programs).
  { subst programs. apply List.Forall_forall. intros p Hp.
    apply in_map_iff in Hp as (c & <- & _). apply program_bracketed. }
  split; [exact Hall|].
  split. { intros c before e after. apply bracketed_inside, program_bracketed. }
  split; [exact launched_program_span|].
  intros Hexec.
  destruct (serialized_exec programs Hall labels s Hexec)
    as (order & current & Hnodup & Hlabels & _ & Hcur).
  exists order, current. split; [assumption|]. split; [assumption|].
  destruct Hcur as [(Hc & Hl & _)
                   | (j & done & rest & Hj & Hp & Hd & Hr & _ & Hc & Hl & _)].
  - left. auto.
  - right. exists j, done, rest. auto 10.
Qed.

Lemma runs_never_overlap_witness :
  let labels :=
    [ (2%nat, LockAcquire); (2%nat, RegistryAdd "rules_rust");
      (2%nat, PathExists "rules_rust" false); (2%nat, LockRelease);
      (0%nat, LockAcquire) ] in
  exists order current,
    NoDup order
    /\ labels = serial (map program three_calls) order ++ current
    /\ ((current = [] /\ true = false)
        \/ exists j done rest,
             (j ∉ order)
             /\ map program three_calls !! j = Some (done ++ rest)
             /\ done <> [] /\ rest <> []
             /\ current = tagged j done
             /\ true = true).
Proof.
  intros labels.
  assert (Hexec : exists pool, exec (false, map program three_calls) labels (true, pool)).
  { eexists. subst labels.
    eapply exec_cons; [eapply step_acquire; reflexivity|].
    eapply exec_cons; [eapply step_other; reflexivity|].
    eapply exec_cons; [eapply step_other; reflexivity|].
    eapply exec_cons; [eapply step_release; reflexivity|].
    eapply exec_cons; [eapply step_acquire; reflexivity|].
    apply exec_nil. }
  destruct Hexec as [pool Hexec].
  exact (proj2 (proj2 (proj2 (runs_never_overlap three_calls labels (true, pool)))) Hexec).
Defined.

(** * Further properties of the harness *)

(** ** Every way a run can go *)

(** Up to any bound, either every attempt is caught or there is a first
    one that is not. *)
Lemma first_uncaught w n :
  (forall i, (i < n)%nat -> is_Some (caught (urlopen w i)))
  \/ exists k,
       (k < n)%nat
       /\ (forall i, (i < k)%nat -> is_Some (caught (urlopen w i)))
       /\ caught (urlopen w k) = None.
Proof.
  induction n as [|n [Hall | (k & Hk & Hbefore & Hnone)]].
  - left. intros i Hi. lia.
  - destruct (caught (urlopen w n)) as [msg|] eqn:Hn.
    + left. intros i Hi. destruct (decide (i = n)) as [-> | Hne].
      * rewrite Hn. eauto.
      * apply Hall. lia.
    + right. exists n. split; [lia|]. split; [|assumption].
      intros i Hi. apply Hall. lia.
  - right. exists k. split; [lia|]. auto.
Qed.

Lemma attempt_other w port i logs reg e :
  urlopen w i = RaisesOther e ->
  attempt w port i logs reg
  = (Raised (OtherError e), [UrlOpen (url_of port) 5], reg).
Proof. unfold attempt, bind, emit, raise. intros ->. reflexivity. Qed.

Lemma poll_loop_other w port pre k post e : forall logs reg,
  Forall (fun i => is_Some (caught (urlopen w i))) pre ->
  urlopen w k = RaisesOther e ->
  poll_loop w port (pre ++ k :: post) logs reg
  = (Raised (OtherError e),
     flat_map (attempt_events port) pre ++ [UrlOpen (url_of port) 5], reg).
Proof.
  induction pre as [|i rest IH]; intros logs reg Hall Hk.
  - cbn [app poll_loop flat_map]. unfold bind.
    rewrite (attempt_other _ _ _ _ _ _ Hk). reflexivity.
  - inversion Hall as [|? ? [msg Hmsg] Hrest]; subst.
    cbn [app poll_loop flat_map]. unfold bind at 1.
    rewrite (attempt_caught _ _ _ _ _ _ Hmsg), IH by assumption.
    by rewrite <- app_assoc.
Qed.

Section MoreRuns.
Variable w : world.
Variables example target : string.
Variable reg : gset string.
Hypothesis Hlaunch : launches w example = true.

(** The process is already gone at the liveness check. *)
Lemma run_premature_exit code :
  poll_result w = Some code ->
  _run_flask_target w example target reg
  = (Raised (AssertionError (PrematureExit code (free_port w))),
     prologue w example target
     ++ [ProcessPoll (Some code)] ++ cleanup_events w ++ [LockRelease],
     {[example]} ∪ reg).
Proof.
  intros Hexit.
  by rewrite (run_launched _ _ _ _ Hlaunch), (try_body_exited _ _ _ _ Hexit).
Qed.

(** Attempt [k] is the first that is not caught, and it raises something
    other than [HTTPError] and [URLError]. *)
Lemma run_other_error k e :
  poll_result w = None ->
  (k <= max_tries)%nat ->
  (forall i, (i < k)%nat -> is_Some (caught (urlopen w i))) ->
  urlopen w k = RaisesOther e ->
  _run_flask_target w example target reg
  = (Raised (OtherError e),
     prologue w example target
     ++ (ProcessPoll None
         :: flat_map (attempt_events (free_port w)) (seq 0 k)
            ++ [UrlOpen (url_of (free_port w)) 5])
     ++ cleanup_events w ++ [LockRelease],
     {[example]} ∪ reg).
Proof.
  intros Hrunning Hk Hbefore Hother.
  rewrite (run_launched _ _ _ _ Hlaunch), (try_body_running _ _ _ Hrunning).
  replace (seq 0 (max_tries + 1))
    with (seq 0 k ++ k :: seq (S k) (max_tries - k)).
  2:{ change (k :: seq (S k) (max_tries - k)) with (seq k (S (max_tries - k))).
      rewrite <- seq_app. f_equal. lia. }
  rewrite (poll_loop_other _ _ _ _ _ e); [reflexivity | | assumption].
  by apply Forall_seq_lt.
Qed.
End MoreRuns.

(** Every run that spawns the process goes one of these four ways, and its
    trace is the spawn, the events of that way, the cleanup and the
    release. *)
Lemma launched_cases w example target reg :
  launches w example = true ->
  exists v t,
    launched_outcome w example target v t
    /\ run w example target reg
       = {| run_verdict := v;
            run_trace := prologue w example target
                         ++ t ++ cleanup_events w ++ [LockRelease];
            run_registry := {[example]} ∪ reg |}.
Proof.
  intros Hlaunch. unfold run.
  destruct (poll_result w) as [code|] eqn:Hpoll.
  { eexists _, _. split; [by apply outcome_exited|].
    by rewrite (run_premature_exit _ _ _ _ Hlaunch _ Hpoll). }
  destruct (first_uncaught w (S max_tries))
    as [Hall | (k & Hk & Hbefore & Hnone)].
  - eexists _, _. split.
    + apply outcome_exhausted; [assumption|]. intros i Hi. apply Hall. lia.
    + rewrite (run_all_caught _ _ _ _ Hlaunch Hpoll)
        by (intros i Hi; apply Hall; lia).
      reflexivity.
  - destruct (urlopen w k) as [content|code msg|reason|e] eqn:Hanswer;
      try discriminate.
    + eexists _, _. split.
      * apply (outcome_response _ _ _ k content); [assumption|lia|assumption..].
      * rewrite (run_first_response _ _ _ _ Hlaunch Hpoll k content)
          by (assumption || lia).
        destruct (String.eqb content expected_content); reflexivity.
    + eexists _, _. split.
      * apply (outcome_other _ _ _ k e); [assumption|lia|assumption..].
      * by rewrite (run_other_error _ _ _ _ Hlaunch k e) by (assumption || lia).
Qed.

(** Every run that does not spawn the process ends one of three ways. *)
Lemma unlaunched_cases w example target reg :
  launches w example = false ->
  exists v mid,
    unlaunched_outcome w example target v mid
    /\ run w example target reg
       = {| run_verdict := v;
            run_trace := LockAcquire :: RegistryAdd example
                         :: PathExists example (example_dir_exists w example)
                         :: mid ++ [LockRelease];
            run_registry := {[example]} ∪ reg |}.
Proof.
  intros Hlaunch. unfold run.
  destruct (example_dir_exists w example) eqn:Hfound.
  2:{ eexists _, _. split; [by apply outcome_not_found|].
      by rewrite (run_not_found _ _ _ _ Hfound). }
  unfold launches in Hlaunch. rewrite Hfound in Hlaunch. cbn [andb] in Hlaunch.
  destruct (environ w !! "BAZEL_STARTUP_FLAGS") as [flags|] eqn:Hflags.
  - destruct (shlex_split w flags) as [args|] eqn:Hsplit.
    + rewrite bool_decide_eq_true_2 in Hlaunch by eauto. cbn [andb] in Hlaunch.
      apply bool_decide_eq_false in Hlaunch.
      destruct (popen_error w) as [e|] eqn:Hpopen; [|done].
      eexists _, _. split.
      * apply (outcome_popen_raises _ _ _ e); [assumption| |assumption].
        rewrite Hflags, Hsplit. eauto.
      * rewrite (run_popen_error w example target reg Hfound e);
          [reflexivity | by rewrite Hflags, Hsplit | done].
    + eexists _, _. split.
      * by apply (outcome_bad_flags _ _ _ flags).
      * by rewrite (run_flags_error w example target reg Hfound flags Hflags Hsplit).
  - cbn [andb] in Hlaunch. apply bool_decide_eq_false in Hlaunch.
    destruct (popen_error w) as [e|] eqn:Hpopen; [|done].
    eexists _, _. split.
    + apply (outcome_popen_raises _ _ _ e); [assumption| |assumption].
      by rewrite Hflags.
    + rewrite (run_popen_error w example target reg Hfound e);
        [reflexivity | by rewrite Hflags | done].
Qed.

(** After the liveness check a spawned run only requests and sleeps. *)
Lemma launched_outcome_events w example target v t :
  launched_outcome w example target v t ->
  exists code t',
    t = ProcessPoll code :: t'
    /\ Forall (fun e => e = UrlOpen (url_of (free_port w)) 5 \/ e = Sleep 5) t'.
Proof.
  assert (Hevents : forall indices,
    Forall (fun e => e = UrlOpen (url_of (free_port w)) 5 \/ e = Sleep 5)
      (flat_map (attempt_events (free_port w)) indices
       ++ [UrlOpen (url_of (free_port w)) 5])).
  { induction indices as [|i rest IH]; [cbn [flat_map app]; forall_events|].
    cbn [flat_map]. rewrite <- app_assoc. apply Forall_app. split; [|exact IH].
    unfold attempt_events. destruct (i <? max_tries)%nat; forall_events. }
  destruct 1; eexists _, _; (split; [reflexivity|]);
    first [apply Hevents | constructor].
Qed.

(** The requests of a spawned run: none, or [k] request-and-sleep rounds
    and one last request, with [k] at most [max_tries]. *)
Lemma launched_outcome_rounds w example target v t :
  launched_outcome w example target v t ->
  exists code,
    t = [ProcessPoll code]
    \/ exists k,
         (k <= max_tries)%nat
         /\ t = ProcessPoll code
                :: flat_map (attempt_events (free_port w)) (seq 0 k)
                   ++ [UrlOpen (url_of (free_port w)) 5].
Proof.
  destruct 1; eexists; first [by left | right; eexists; split; [|reflexivity]];
    first [assumption | reflexivity].
Qed.

Lemma no_popen_after_spawn w example target v t :
  launched_outcome w example target v t ->
  List.filter is_popen (t ++ cleanup_events w ++ [LockRelease]) = [].
Proof.
  intros Hout.
  destruct (launched_outcome_events _ _ _ _ _ Hout) as (code & t' & -> & Ht').
  apply filter_nil_of_Forall. apply Forall_app. split.
  - constructor; [reflexivity|].
    eapply polling_events_not; [| |exact Ht']; reflexivity.
  - unfold cleanup_events. destruct (exits_within_grace w); forall_events.
Qed.

(** ** The launch invocation *)

(** X1.  A run that spawns the process calls [Popen] exactly once.  The
    command is [bazel], then the tokens of [BAZEL_STARTUP_FLAGS] (none when
    the variable is unset), then [run] and the target; the working directory
    is the example's; the environment is [os.environ] with [FLASK_RUN_PORT]
    set to the decimal text of the probed port and every other variable
    passed through unchanged. *)
Theorem spawn_command_and_environment w example target reg :
  launches w example = true ->
  exists args env,
    List.filter is_popen (run_trace (run w example target reg))
    = [Popen (["bazel"] ++ args ++ ["run"; target]) example env]
    /\ match environ w !! "BAZEL_STARTUP_FLAGS" with
       | None => args = []
       | Some flags => shlex_split w flags = Some args
       end
    /\ env !! "FLASK_RUN_PORT" = Some (str (free_port w))
    /\ forall key, key <> "FLASK_RUN_PORT" -> env !! key = environ w !! key.
Proof.
  intros Hlaunch.
  destruct (launched_cases w example target reg Hlaunch) as (v & t & Hout & ->).
  cbn [run_trace].
  exists (args_of w), (<["FLASK_RUN_PORT" := str (free_port w)]> (environ w)).
  split; [|split; [|split]].
  - rewrite List.filter_app, (no_popen_after_spawn _ _ _ _ _ Hout).
    reflexivity.
  - unfold launches in Hlaunch.
    apply andb_prop in Hlaunch as [Hlaunch _].
    apply andb_prop in Hlaunch as [_ Hflags].
    unfold args_of.
    destruct (environ w !! "BAZEL_STARTUP_FLAGS") as [flags|]; [|reflexivity].
    apply bool_decide_eq_true in Hflags as [args ->]. reflexivity.
  - apply lookup_insert_eq.
  - intros key Hkey. by apply lookup_insert_ne.
Qed.

Lemma spawn_command_and_environment_witness :
  exists env,
    List.filter is_popen
      (run_trace (run w_exited "rules_venv" "//:flask_hello_world.scie" ∅))
    = [Popen ["bazel"; "--bazelrc=ci.rc"; "run"; "//:flask_hello_world.scie"]
         "rules_venv" env]
    /\ env !! "FLASK_RUN_PORT" = Some "8080"
    /\ env !! "BAZEL_STARTUP_FLAGS" = Some "--bazelrc=ci.rc".
Proof.
  destruct (spawn_command_and_environment w_exited
              "rules_venv" "//:flask_hello_world.scie" ∅)
    as (args & env & Hpopen & Hargs & Hport & Hrest); [reflexivity|].
  assert (args = ["--bazelrc=ci.rc"]) as -> by (cbv in Hargs; congruence).
  exists env. split; [exact Hpopen|]. split; [exact Hport|].
  rewrite Hrest by discriminate. reflexivity.
Defined.

(** ** Runs that end before the spawn *)

(** X2.  If [BAZEL_STARTUP_FLAGS] is set to text that [shlex.split] rejects,
    the run of an existing example ends as an error with the [ValueError]
    that [shlex.split] raised, carrying [shlex]'s own message:
    a port has been probed, but nothing is printed or spawned, there is
    nothing to clean up, and the lock is released. *)
Theorem bad_startup_flags_abort w example target reg flags :
  example_dir_exists w example = true ->
  environ w !! "BAZEL_STARTUP_FLAGS" = Some flags ->
  shlex_split w flags = None ->
  let r := run w example target reg in
  run_verdict r = Errored (ValueError (shlex_error w flags))
  /\ run_trace r
     = [LockAcquire; RegistryAdd example; PathExists example true;
        GetFreePort (free_port w); LockRelease].
Proof.
  intros Hfound Hflags Hsplit r. subst r. unfold run.
  rewrite (run_flags_error w example target reg Hfound flags Hflags Hsplit).
  split; reflexivity.
Qed.

Lemma bad_startup_flags_abort_witness :
  let r := run w_bad_flags "rules_venv" "//:flask_hello_world.pex" ∅ in
  run_verdict r = Errored (ValueError "No closing quotation")
  /\ run_trace r
     = [LockAcquire; RegistryAdd "rules_venv"; PathExists "rules_venv" true;
        GetFreePort 8080; LockRelease].
Proof.
  apply (bad_startup_flags_abort w_bad_flags
           "rules_venv" "//:flask_hello_world.pex" ∅ "--output_base='/tmp/x");
    reflexivity.
Defined.

(** X3.  If [Popen] raises, the run ends as an error with that [OSError].
    The command line has been printed, but the [try]/[finally] has not
    been entered: the process is never polled, terminated, waited for or
    killed, no request is made, and the one-second pause is skipped. *)
Theorem popen_failure_skips_cleanup w example target reg e :
  example_dir_exists w example = true ->
  match environ w !! "BAZEL_STARTUP_FLAGS" with
  | None => True
  | Some flags => is_Some (shlex_split w flags)
  end ->
  popen_error w = Some e ->
  let r := run w example target reg in
  run_verdict r = Errored (OSError e)
  /\ (exists line,
        run_trace r
        = [LockAcquire; RegistryAdd example; PathExists example true;
           GetFreePort (free_port w); Print line; LockRelease])
  /\ Forall (fun ev => is_cleanup_event ev = false /\ is_poll ev = false
                       /\ is_urlopen ev = false)
       (run_trace r).
Proof.
  intros Hfound Hflags Hpopen r. subst r. unfold run.
  rewrite (run_popen_error w example target reg Hfound e Hflags Hpopen).
  cbn [run_verdict run_trace verdict_of]. split; [reflexivity|].
  split; [eexists; reflexivity|].
  repeat (constructor; [repeat split|]). constructor.
Qed.

Lemma popen_failure_skips_cleanup_witness :
  let r := run w_no_bazel "rules_venv" "//:flask_hello_world.pex" ∅ in
  run_verdict r = Errored (OSError "[Errno 2] No such file or directory: 'bazel'")
  /\ Forall (fun ev => is_cleanup_event ev = false /\ is_poll ev = false
                       /\ is_urlopen ev = false)
       (run_trace r).
Proof.
  destruct (popen_failure_skips_cleanup w_no_bazel
              "rules_venv" "//:flask_hello_world.pex" ∅
              "[Errno 2] No such file or directory: 'bazel'")
    as (Hv & _ & Hnone); [reflexivity | exact I | reflexivity |].
  split; assumption.
Defined.

(** X4.  A run that does not spawn the process, for whatever reason, never
    passes, and its trace holds no spawn, no liveness check, no request, no
    sleep and no cleanup action. *)
Theorem no_spawn_no_cleanup w example target reg :
  launches w example = false ->
  let r := run w example target reg in
  run_verdict r <> Passed
  /\ Forall (fun ev => is_popen ev = false /\ is_poll ev = false
                       /\ is_urlopen ev = false /\ is_sleep5 ev = false
                       /\ is_cleanup_event ev = false)
       (run_trace r).
Proof.
  intros Hlaunch r. subst r.
  destruct (unlaunched_cases w example target reg Hlaunch)
    as (v & mid & Hout & ->).
  cbn [run_verdict run_trace].
  destruct Hout; (split; [discriminate|]);
    repeat (constructor; [repeat split|]); constructor.
Qed.

Lemma no_spawn_no_cleanup_witness :
  run_verdict (run w_no_bazel "rules_venv" "//:flask_hello_world.pex" ∅)
  <> Passed.
Proof.
  apply (no_spawn_no_cleanup w_no_bazel "rules_venv"
           "//:flask_hello_world.pex" ∅).
  reflexivity.
Defined.

(** ** Requests, sleeps and verdicts of any run *)

Lemma slept_app t1 t2 : slept (t1 ++ t2) = (slept t1 + slept t2)%N.
Proof.
  unfold slept. induction t1 as [|e t1 IH]; [reflexivity|].
  cbn [app foldr]. rewrite IH. destruct e; lia.
Qed.

Lemma slept_attempt_events port indices :
  Forall (fun i => (i < max_tries)%nat) indices ->
  slept (flat_map (attempt_events port) indices)
  = (5 * N.of_nat (length indices))%N.
Proof.
  induction 1 as [|i rest Hi _ IH]; [reflexivity|].
  cbn [flat_map length]. rewrite slept_app, IH.
  unfold attempt_events. apply Nat.ltb_lt in Hi. rewrite Hi.
  cbn [slept foldr]. lia.
Qed.

Lemma slept_cleanup w : slept (cleanup_events w) = 1%N.
Proof. unfold cleanup_events. destruct (exits_within_grace w); reflexivity. Qed.

Lemma slept_prologue w example target : slept (prologue w example target) = 0%N.
Proof. reflexivity. Qed.

(** X5.  An exception from an attempt that is neither [HTTPError] nor
    [URLError] is not retried.  If attempt [k] is the first that is not
    caught and it raises such an exception, the run ends as an error with
    it after [k + 1] requests and [k] sleeps, and the cleanup still runs
    before the lock is released. *)
Theorem other_exception_ends_the_run w example target reg k e :
  launches w example = true ->
  poll_result w = None ->
  (k <= max_tries)%nat ->
  (forall i, (i < k)%nat -> is_Some (caught (urlopen w i))) ->
  urlopen w k = RaisesOther e ->
  let r := run w example target reg in
  run_verdict r = Errored (OtherError e)
  /\ attempts (run_trace r) = S k
  /\ sleeps (run_trace r) = k
  /\ exists before,
       run_trace r = before ++ cleanup_events w ++ [LockRelease].
Proof.
  intros Hlaunch Hrunning Hk Hbefore Hother r. subst r. unfold run.
  rewrite (run_other_error _ _ _ _ Hlaunch k e Hrunning Hk Hbefore Hother).
  cbn [run_verdict run_trace verdict_of]. split; [reflexivity|].
  split; [|split].
  - count_events. rewrite length_seq. cbn. lia.
  - count_events.
    rewrite sleeps_attempt_events, length_seq.
    + cbn. lia.
    + apply Forall_seq_lt. intros i Hi. lia.
  - eexists. rewrite app_assoc. reflexivity.
Qed.

Lemma other_exception_ends_the_run_witness :
  let r := run w_read_timeout "rules_venv" "//:flask_hello_world.pex" ∅ in
  run_verdict r = Errored (OtherError "TimeoutError: timed out")
  /\ attempts (run_trace r) = 3%nat
  /\ sleeps (run_trace r) = 2%nat.
Proof.
  destruct (other_exception_ends_the_run w_read_timeout
              "rules_venv" "//:flask_hello_world.pex" ∅ 2
              "TimeoutError: timed out")
    as (Hv & Hn & Hs & _).
  - reflexivity.
  - reflexivity.
  - unfold max_tries. lia.
  - intros i Hi. destruct i as [|[|i]]; [eexists; reflexivity ..| lia].
  - reflexivity.
  - repeat split; assumption.
Defined.

(** X6.  Whatever the world does, a run makes at most 31 requests, sleeps
    five seconds between consecutive requests and never after the last one
    (the number of five-second sleeps is the number of requests less one),
    and spends in [time.sleep] five seconds per such sleep plus the one
    second of the cleanup when the process was spawned: at most 151 seconds
    in all. *)
Theorem requests_and_sleeps_bounded w example target reg :
  let t := run_trace (run w example target reg) in
  (attempts t <= 31)%nat
  /\ sleeps t = pred (attempts t)
  /\ slept t
     = (5 * N.of_nat (sleeps t) + if launches w example then 1 else 0)%N
  /\ (slept t <= 151)%N.
Proof.
  intros t. subst t.
  assert (Hmain :
    let t := run_trace (run w example target reg) in
    (attempts t <= 31)%nat /\ sleeps t = pred (attempts t)
    /\ slept t = (5 * N.of_nat (sleeps t) + if launches w example then 1 else 0)%N).
  { destruct (launches w example) eqn:Hlaunch.
    - destruct (launched_cases w example target reg Hlaunch)
        as (v & tr & Hout & ->).
      cbn [run_trace].
      destruct (launched_outcome_rounds _ _ _ _ _ Hout)
        as (code & [-> | (k & Hk & ->)]).
      + rewrite !slept_app, slept_cleanup, slept_prologue.
        count_events. cbn. repeat split; lia.
      + assert (Hlt : Forall (fun i => (i < max_tries)%nat) (seq 0 k))
          by (apply Forall_seq_lt; intros i Hi; lia).
        change (ProcessPoll code :: ?l) with ([ProcessPoll code] ++ l).
        rewrite !slept_app, slept_cleanup, slept_prologue,
          (slept_attempt_events _ _ Hlt).
        count_events.
        rewrite (sleeps_attempt_events _ _ Hlt), length_seq.
        unfold max_tries in Hk. cbn. repeat split; lia.
    - destruct (unlaunched_cases w example target reg Hlaunch)
        as (v & mid & Hout & ->).
      cbn [run_trace]. destruct Hout; cbn; repeat split; lia. }
  cbv zeta in Hmain. destruct Hmain as (Hle & Heq & Hslept).
  repeat split; try assumption.
  rewrite Hslept, Heq. destruct (launches w example); lia.
Qed.

(** X7.  A run passes exactly when the process was spawned and alive at
    the liveness check and the first attempt that is not caught, among the
    31, returns a response whose body is ["hello world!"]. *)
Theorem passes_iff_hello w example target reg :
  run_verdict (run w example target reg) = Passed
  <-> launches w example = true
      /\ poll_result w = None
      /\ exists k,
           (k <= max_tries)%nat
           /\ (forall i, (i < k)%nat -> is_Some (caught (urlopen w i)))
           /\ urlopen w k = Response "hello world!".
Proof.
  split.
  - intros Hpass.
    destruct (launches w example) eqn:Hlaunch.
    + destruct (launched_cases w example target reg Hlaunch)
        as (v & t & Hout & Hrun).
      rewrite Hrun in Hpass. cbn [run_verdict] in Hpass. subst v.
      inversion Hout as [ | | k content Hrunning Hk Hbefore Hresp Hv | ];
        subst.
      split; [reflexivity|]. split; [assumption|].
      exists k. split; [assumption|]. split; [assumption|].
      destruct (String.eqb content expected_content) eqn:Heq; [|discriminate].
      apply String.eqb_eq in Heq. by rewrite Hresp, Heq.
    + destruct (unlaunched_cases w example target reg Hlaunch)
        as (v & mid & Hout & Hrun).
      rewrite Hrun in Hpass. cbn [run_verdict] in Hpass. subst v.
      inversion Hout.
  - intros (Hlaunch & Hrunning & k & Hk & Hbefore & Hresp).
    unfold run.
    by rewrite (run_first_response _ _ _ _ Hlaunch Hrunning k _ Hk Hbefore Hresp).
Qed.

Lemma passes_iff_hello_witness :
  run_verdict (run w_hello "rules_venv" "//:flask_hello_world.pex" ∅) = Passed.
Proof.
  apply (passes_iff_hello w_hello "rules_venv" "//:flask_hello_world.pex" ∅).
  split; [reflexivity|]. split; [reflexivity|].
  exists 2%nat. split; [unfold max_tries; lia|]. split; [|reflexivity].
  intros i Hi. destruct i as [|[|i]]; [eexists; reflexivity ..| lia].
Defined.

(** X8.  The unreachable failure is raised only after all 31 attempts were
    caught, in a spawned run whose process was alive at the liveness check,
    and the log it carries is [str(exc)] of the 31 exceptions in the order
    of the attempts. *)
Theorem unreachable_only_after_31 w example target reg logs :
  run_verdict (run w example target reg) = Failed (Unreachable logs) ->
  launches w example = true
  /\ poll_result w = None
  /\ (forall i, (i <= max_tries)%nat -> is_Some (caught (urlopen w i)))
  /\ logs = omap (fun i => caught (urlopen w i)) (seq 0 (max_tries + 1))
  /\ length logs = 31%nat
  /\ attempts (run_trace (run w example target reg)) = 31%nat.
Proof.
  intros Hfail.
  destruct (launches w example) eqn:Hlaunch.
  - destruct (launched_cases w example target reg Hlaunch)
      as (v & t & Hout & Hrun).
    rewrite Hrun in Hfail |- *. cbn [run_verdict run_trace] in Hfail |- *.
    destruct Hout as [code Hexit | Hrunning Hall
                     | k content Hrunning Hk Hbefore Hresp
                     | k e Hrunning Hk Hbefore Hother].
    + discriminate.
    + assert (Hlogs : logs = omap (fun i => caught (urlopen w i))
                               (seq 0 (max_tries + 1)))
        by congruence.
      clear Hfail.
      split; [reflexivity|]. split; [assumption|]. split; [assumption|].
      split; [assumption|]. split.
      * rewrite Hlogs, length_omap_all; [reflexivity|].
        apply Forall_seq_lt. intros i Hi. apply Hall.
        change (max_tries + 1)%nat with (S max_tries) in Hi. lia.
      * count_events. rewrite length_seq. reflexivity.
    + destruct (String.eqb content expected_content); discriminate.
    + discriminate.
  - destruct (unlaunched_cases w example target reg Hlaunch)
      as (v & mid & Hout & Hrun).
    rewrite Hrun in Hfail. cbn [run_verdict] in Hfail.
    destruct Hout; discriminate.
Qed.

Lemma unreachable_only_after_31_witness :
  exists logs,
    run_verdict (run w_refused "rules_venv" "//:flask_hello_world.pex" ∅)
    = Failed (Unreachable logs)
    /\ length logs = 31%nat.
Proof.
  eexists. split; [vm_compute; reflexivity|].
  eapply (unreachable_only_after_31 w_refused
            "rules_venv" "//:flask_hello_world.pex" ∅).
  vm_compute. reflexivity.
Defined.

(** ** More on the coverage audit *)

Lemma audit_pass_equal w (tested : gset string) :
  tearDownClass w tested = None -> tested = discover (listing w) ∅.
Proof.
  unfold tearDownClass. intros Hpass.
  destruct (nonempty (discover (listing w) ∅ ∖ tested)) eqn:Huntested;
    [discriminate|].
  destruct (nonempty (tested ∖ discover (listing w) ∅)) eqn:Hphantom;
    [discriminate|].
  apply nonempty_false in Huntested, Hphantom.
  apply set_eq. intros x. split; intros Hx.
  - destruct (decide (x ∈ discover (listing w) ∅)) as [|Hout]; [assumption|].
    assert (x ∈ tested ∖ discover (listing w) ∅) as Hin
      by (apply elem_of_difference; auto).
    rewrite Hphantom in Hin. by apply not_elem_of_empty in Hin.
  - destruct (decide (x ∈ tested)) as [|Hout]; [assumption|].
    assert (x ∈ discover (listing w) ∅ ∖ tested) as Hin
      by (apply elem_of_difference; auto).
    rewrite Huntested in Hin. by apply not_elem_of_empty in Hin.
Qed.

Lemma audit_equal_pass w :
  tearDownClass w (discover (listing w) ∅) = None.
Proof. apply (audit_cases w (discover (listing w) ∅)). reflexivity. Qed.

(** X9.  The audit passes exactly when the set of tested names equals the
    set of discovered example directories; any difference, in either
    direction, makes it raise. *)
Theorem audit_passes_exactly_on_equal_sets w (tested : gset string) :
  tearDownClass w tested = None <-> tested = discover (listing w) ∅.
Proof.
  split.
  - apply audit_pass_equal.
  - intros ->. apply audit_equal_pass.
Qed.

Lemma audit_passes_exactly_on_equal_sets_witness :
  tearDownClass w_two_examples {["rules_python"; "rules_venv"]} = None.
Proof.
  apply (audit_passes_exactly_on_equal_sets w_two_examples).
  vm_compute. reflexivity.
Defined.

Lemma discover_ext (paths paths' : list dir_entry) :
  (forall example_dir,
      is_example_dir example_dir = true ->
      (example_dir ∈ paths <-> example_dir ∈ paths')) ->
  discover paths ∅ = discover paths' ∅.
Proof.
  intros Hsame. apply set_eq. intros x. rewrite !elem_of_discover.
  split; (intros [H | (p & Hp & Hn & He)]; [by left|]);
    right; exists p; (split; [by apply (Hsame p He)|auto]).
Qed.

(** X10.  The audit does not depend on the order in which [iterdir()]
    yields the entries, nor on an entry being yielded more than once: two
    directory contents with the same entries give the same result. *)
Theorem audit_ignores_listing_order w w' (tested : gset string) :
  (forall path, path ∈ listing w <-> path ∈ listing w') ->
  tearDownClass w tested = tearDownClass w' tested.
Proof.
  intros Hsame. unfold tearDownClass.
  rewrite (discover_ext (listing w) (listing w')); [reflexivity|].
  intros p _. apply Hsame.
Qed.

Lemma audit_ignores_listing_order_witness :
  tearDownClass (with_listing w_two_examples (rev (listing w_two_examples)))
    {["rules_venv"]}
  = tearDownClass w_two_examples {["rules_venv"]}.
Proof.
  apply (audit_ignores_listing_order
           (with_listing w_two_examples (rev (listing w_two_examples)))
           w_two_examples).
  intros path. cbn [listing with_listing].
  rewrite !list_elem_of_In. symmetry. apply in_rev.
Defined.

(** X11.  Plain files, hidden directories, [__pycache__] and directories
    without [BUILD.bazel] have no influence on the audit: leaving every
    such entry out of the directory gives the same result. *)
Theorem audit_ignores_non_examples w (tested : gset string) :
  tearDownClass (with_listing w (List.filter is_example_dir (listing w))) tested
  = tearDownClass w tested.
Proof.
  unfold tearDownClass. cbn [listing with_listing].
  rewrite (discover_ext (List.filter is_example_dir (listing w)) (listing w));
    [reflexivity|].
  intros p Hp. rewrite !list_elem_of_In, List.filter_In. tauto.
Qed.

(** ** The class run *)

(** One method of the class, run from any registry: the verdict and the
    trace are those of the method run alone, and the registry gains the
    example's name. *)
Lemma run_method_target w example target reg :
  run_method (_run_flask_target w example target) reg
  = {| run_verdict := run_verdict (run w example target ∅);
       run_trace := run_trace (run w example target ∅);
       run_registry := {[example]} ∪ reg |}.
Proof.
  unfold run_method, run.
  destruct (run_shape w example target) as (c & body & Hrun & _).
  rewrite !Hrun. reflexivity.
Qed.

Lemma run_methods_targets (calls : list call) : forall reg,
  run_methods
    (map (fun c => _run_flask_target (call_world c) (call_example c)
                     (call_target c)) calls) reg
  = (map (fun c => run_verdict (run (call_world c) (call_example c)
                                  (call_target c) ∅)) calls,
     flat_map program calls,
     list_to_set (map call_example calls) ∪ reg).
Proof.
  induction calls as [|c rest IH]; intros reg.
  - cbn. f_equal. set_solver.
  - cbn [map run_methods flat_map list_to_set].
    rewrite run_method_target. cbn [run_registry run_verdict run_trace].
    rewrite IH. unfold program at 1. f_equal. set_solver.
Qed.

(** The six methods as calls. *)
Lemma test_methods_calls worlds :
  test_methods worlds
  = map (fun c => _run_flask_target (call_world c) (call_example c)
                    (call_target c))
      [ {| call_world := worlds 0%nat; call_example := "aspect_rules_py";
           call_target := "//:flask_hello_world.pex" |};
        {| call_world := worlds 1%nat; call_example := "rules_python";
           call_target := "//:flask_hello_world.pex" |};
        {| call_world := worlds 2%nat; call_example := "rules_venv";
           call_target := "//:flask_hello_world.pex" |};
        {| call_world := worlds 3%nat; call_example := "aspect_rules_py";
           call_target := "//:flask_hello_world.scie" |};
        {| call_world := worlds 4%nat; call_example := "rules_python";
           call_target := "//:flask_hello_world.scie" |};
        {| call_world := worlds 5%nat; call_example := "rules_venv";
           call_target := "//:flask_hello_world.scie" |} ].
Proof. reflexivity. Qed.

Lemma class_registry worlds :
  (run_methods (test_methods worlds) ∅).2 = covered_examples.
Proof.
  rewrite test_methods_calls, run_methods_targets. cbn [snd map call_example].
  unfold covered_examples. apply set_eq. intros x. set_solver.
Qed.

(** X12.  Whatever the six test methods meet and however they end, after
    they have run the registry holds exactly the three example names
    [aspect_rules_py], [rules_python] and [rules_venv], and six verdicts
    have been recorded. *)
Theorem class_run_registers_three_examples worlds :
  let result := run_methods (test_methods worlds) ∅ in
  result.2 = covered_examples /\ length (result.1.1) = 6%nat.
Proof.
  intros result. subst result. split; [apply class_registry|].
  rewrite test_methods_calls, run_methods_targets. reflexivity.
Qed.

(** X13.  The audit at the end of the class run passes exactly when the
    example directories found on disk at that time are the three the test
    methods name, whatever the verdicts of the methods were. *)
Theorem class_audit_passes_iff_three_on_disk worlds w_end :
  (run_class worlds w_end).2 = None
  <-> discover (listing w_end) ∅ = covered_examples.
Proof.
  unfold run_class.
  pose proof (class_registry worlds) as Hreg.
  destruct (run_methods (test_methods worlds) ∅) as [[verdicts t] reg].
  cbn [snd] in *. subst reg. split.
  - intros Hpass. symmetry. by apply audit_pass_equal.
  - intros <-. apply audit_equal_pass.
Qed.

(** X14.  Each method's verdict in the class run is the verdict it has
    when it runs alone from an empty registry: what earlier methods
    registered does not change how a later one ends. *)
Theorem class_verdicts_are_those_of_isolated_runs worlds w_end :
  (run_class worlds w_end).1
  = map (fun m => run_verdict (run_method m ∅)) (test_methods worlds).
Proof.
  unfold run_class.
  rewrite test_methods_calls, run_methods_targets.
  cbn [fst map]. rewrite !run_method_target. reflexivity.
Qed.

(** ** The lock in a single thread *)

Lemma lock_after_app t1 : forall locked t2,
  lock_after locked (t1 ++ t2)
  = match lock_after locked t1 with
    | Some locked' => lock_after locked' t2
    | None => None
    end.
Proof.
  induction t1 as [|e t1 IH]; intros locked t2; [reflexivity|].
  destruct e, locked; cbn [app lock_after]; auto.
Qed.

Lemma lock_after_body locked body :
  Forall (fun e => is_lock_event e = false) body ->
  lock_after locked body = Some locked.
Proof.
  induction 1 as [|e body He _ IH]; [reflexivity|].
  destruct e; try discriminate; exact IH.
Qed.

Lemma lock_after_bracketed p :
  bracketed p ->
  lock_after false p = Some false /\ lock_after true p = None.
Proof.
  intros (body & -> & Hbody). split; [|reflexivity].
  cbn [lock_after]. rewrite lock_after_app, (lock_after_body _ _ Hbody).
  reflexivity.
Qed.

Lemma lock_after_programs calls :
  lock_after false (flat_map program calls) = Some false.
Proof.
  induction calls as [|c rest IH]; [reflexivity|].
  cbn [flat_map]. rewrite lock_after_app.
  destruct (lock_after_bracketed _ (program_bracketed c)) as [-> _].
  exact IH.
Qed.

(** X15.  [threading.Lock] is not reentrant.  Run one after the other in
    one thread, as the test runner does, the six methods never block on the
    lock and never release a free lock, and the lock is free when the last
    one is done; a call made while the lock is held would block at its
    first action. *)
Theorem class_run_never_blocks_on_its_lock worlds :
  lock_after false (run_methods (test_methods worlds) ∅).1.2 = Some false
  /\ forall c, lock_after true (program c) = None.
Proof.
  split.
  - rewrite test_methods_calls, run_methods_targets. cbn [fst snd].
    apply lock_after_programs.
  - intros c. apply lock_after_bracketed, program_bracketed.
Qed.

(** ** Progress under any schedule *)

Lemma all_done_or_pending (pool : list (list event)) :
  (forall i p, pool !! i = Some p -> p = [])
  \/ exists i e rest, pool !! i = Some (e :: rest).
Proof.
  induction pool as [|p pool [Hdone | (i & e & rest & Hi)]].
  - left. intros i p Hi. discriminate.
  - destruct p as [|e rest].
    + left. intros [|i] p Hi; [by inversion Hi|]. by apply (Hdone i).
    + right. by exists 0%nat, e, rest.
  - right. by exists (S i), e, rest.
Qed.

(** X16.  No schedule of concurrent calls gets stuck: in every state the
    threads can reach, either every call has run to its end or some thread
    can take its next action.  The lock a call holds is always released,
    whichever way the call ends, so no other call waits forever. *)
Theorem calls_never_deadlock (calls : list call) labels s :
  exec (false, map program calls) labels s ->
  (forall i p, snd s !! i = Some p -> p = [])
  \/ exists l s', step s l s'.
Proof.
  intros Hexec.
  assert (Hall : Forall bracketed (map program calls)).
  { apply List.Forall_forall. intros p Hp.
    apply in_map_iff in Hp as (c & <- & _). apply program_bracketed. }
  destruct (serialized_exec _ Hall labels s Hexec)
    as (order & current & _ & _ & Hdone & Hcur).
  destruct s as [locked pool]. cbn [fst snd] in *.
  destruct Hcur as [(_ & -> & Hidle)
                   | (j & done & rest & Hj & Hprog & Hne & Hrest & Hpool & _ & -> & _)].
  - destruct (all_done_or_pending pool) as [Hfin | (i & e & rest & Hi)];
      [by left|].
    right.
    assert (Hout : i ∉ order).
    { intros Hin. rewrite (Hdone i Hin) in Hi. discriminate. }
    pose proof Hi as Hp. rewrite (Hidle i Hout) in Hp.
    destruct (bracketed_head _ e rest (program_at _ Hall _ _ Hp) eq_refl)
      as [-> _].
    eexists _, _. by eapply step_acquire.
  - right. destruct rest as [|e rest']; [congruence|].
    destruct (bracketed_next _ done e rest' (program_at _ Hall _ _ Hprog)
                eq_refl Hne) as [[-> _] | [He _]].
    + eexists _, _. by eapply step_release.
    + eexists _, _. by eapply step_other.
Qed.

Lemma calls_never_deadlock_witness :
  exists l s',
    step (true, <[2%nat := [RegistryAdd "rules_rust";
                            PathExists "rules_rust" false; LockRelease]]>
                  (map program three_calls)) l s'.
Proof.
  destruct (calls_never_deadlock three_calls [(2%nat, LockAcquire)]
              (true, <[2%nat := [RegistryAdd "rules_rust";
                                 PathExists "rules_rust" false; LockRelease]]>
                       (map program three_calls)))
    as [Hdone | Hstep].
  - eapply exec_cons; [|apply exec_nil].
    apply (step_acquire (map program three_calls) 2). reflexivity.
  - discriminate (Hdone 2%nat _ eq_refl).
  - exact Hstep.
Defined.

(** ** The application behind the harness *)

Lemma harness_port_reaches_app_witness :
  exists cmd cwd env,
    Popen cmd cwd env
      ∈ run_trace (run w_hello "rules_venv" "//:flask_hello_world.pex" ∅)
    /\ FlaskHelloWorld.main "__main__" env = FlaskHelloWorld.AppRun 8080.
Proof.
  apply (FlaskHelloWorldFacts.harness_port_reaches_app w_hello
           "rules_venv" "//:flask_hello_world.pex" ∅); reflexivity.
Defined.

(** ** The probe socket *)

Module SocketFacts.
Import Socket.

(** X18.  [get_free_port] never leaks the socket.  If the constructor
    raises there is nothing to close; otherwise the socket is closed exactly
    once, as the last action, whether [bind], [listen] or [getsockname]
    raised or not.  When the function returns, it has bound to port 0 on
    all interfaces, listened with backlog 1, and returns the port
    [getsockname] reported, after the socket was closed. *)
Theorem probe_socket_always_closed sw :
  let result := get_free_port sw in
  (socket_error sw = None ->
   exists mid,
     result.2 = SocketOpen :: mid ++ [SocketClose]
     /\ List.filter is_close mid = [])
  /\ (forall msg,
        socket_error sw = Some msg ->
        result = (Raised (OSError msg), [SocketOpen]))
  /\ (forall port,
        result.1 = Normal port ->
        port = snd (sockname sw)
        /\ result.2 = [SocketOpen; SocketBind "" 0; SocketListen 1;
                       SocketGetsockname; SocketClose])
  /\ result.1 <> Returned.
Proof.
  intros result. subst result.
  unfold get_free_port, with_socket, socket_call.
  destruct (socket_error sw) as [msg0|], (bind_error sw) as [msg1|],
    (listen_error sw) as [msg2|], (getsockname_error sw) as [msg3|];
    cbn [fst snd];
    (split; [first [discriminate | intros _; eexists; split; reflexivity]|]);
    (split; [first [discriminate | intros msg [= <-]; reflexivity]|]);
    (split; [|discriminate]);
    intros port Hport; inversion Hport; subst; split; reflexivity.
Qed.

Lemma probe_socket_always_closed_witness :
  exists mid,
    (get_free_port sw_listen_fails).2 = SocketOpen :: mid ++ [SocketClose]
    /\ List.filter is_close mid = [].
Proof.
  apply (probe_socket_always_closed sw_listen_fails). reflexivity.
Defined.

(** A failed [listen] and a clean probe. *)
Example probe_socket_scenarios :
  get_free_port sw_listen_fails
  = (Raised (OSError "[Errno 98] Address already in use"),
     [SocketOpen; SocketBind "" 0; SocketListen 1; SocketClose])
  /\ get_free_port sw_ok
     = (Normal 40123%N,
        [SocketOpen; SocketBind "" 0; SocketListen 1; SocketGetsockname;
         SocketClose]).
Proof. split; reflexivity. Qed.

End SocketFacts.
